(** * PDF search server: a shallow embedding of the MCP tool handlers

    The development follows the tool handlers of the PDF MCP server
    ([register-pdf], [search-pdfs], [get-pdf-content], [list-pdfs],
    [remove-pdf]) and [registerPDFsFromFolder].  The string, array and
    regular-expression built-ins the handlers call are modelled first, then
    the store and the handlers, then the properties.

    Conventions.
    - A string is its sequence of UTF-16 code units, each a number ([N]).
    - A number argument of a handler is modelled at its integer values
      ([Z]); fractional and infinite numbers are not modelled.
    - The case conversion of strings and the canonicalization of the [i]
      flag are parameters of the handlers ([Host], [engine_host]); their
      tables are given for the code units up to U+00FF and U+0130.
    - An array is a list: the limit of the language on the length of an
      array is not modelled, and a call is stated to return within it.
    - A handler completes normally, throws, or leaves what is modelled of
      the host ([Outside]); see [completion].  A search leaves it only on
      a query that is a pattern outside the modelled fragment
      ([search_budget]).
    - The reads of the clock, of the random generator and of the file
      system are inputs of the handlers. *)

From Stdlib Require Import ZArith NArith List Bool Lia String Ascii.
From Stdlib Require Import DecimalString DecimalZ.
From Stdlib Require Finite.
Import ListNotations.
Open Scope Z_scope.

(* ------------------------------------------------------------------ *)
(** ** Completions: normal results, exceptions, model boundary         *)
(* ------------------------------------------------------------------ *)

Inductive exn : Type :=
  | SyntaxError   (* thrown by the RegExp constructor *)
  | TypeError.    (* property read on undefined *)

Inductive boundary : Type :=
  | OutOfFuel             (* an iteration budget was exhausted *)
  | UnsupportedPattern.   (* a pattern outside the modelled fragment *)

Inductive completion (A : Type) : Type :=
  | Normal (a : A)
  | Throw (e : exn)
  | Outside (b : boundary).

Arguments Normal {A} a.
Arguments Throw {A} e.
Arguments Outside {A} b.

Definition bind {A B : Type} (m : completion A) (k : A -> completion B)
  : completion B :=
  match m with
  | Normal a => k a
  | Throw e => Throw e
  | Outside b => Outside b
  end.

Notation "x <- m ;; k" := (bind m (fun x => k))
  (at level 61, m at next level, right associativity).

(* ------------------------------------------------------------------ *)
(** ** Strings of code units                                           *)
(* ------------------------------------------------------------------ *)

Module JS.

Definition code_unit : Type := N.
Definition jsstring : Type := list code_unit.

(** A literal of the development: the code units of an ASCII text. *)
Definition str (s : string) : jsstring :=
  map N_of_ascii (list_ascii_of_string s).

(** [s.length], and [a.length] for arrays. *)
Definition len {A : Type} (s : list A) : Z := Z.of_nat (List.length s).

(** The code units at offsets [from .. to) of [s]. *)
Definition units (s : jsstring) (from to : Z) : jsstring :=
  firstn (Z.to_nat (to - from)) (skipn (Z.to_nat from) s).

(** [String.prototype.substring(start, end)]: both bounds are clamped to
    [0 .. length] and swapped when they cross; an omitted [end] is the
    length. *)
Definition substring (s : jsstring) (start : Z) (end_ : option Z) : jsstring :=
  let size := len s in
  let intEnd := match end_ with Some e => e | None => size end in
  let finalStart := Z.min (Z.max start 0) size in
  let finalEnd := Z.min (Z.max intEnd 0) size in
  let from := Z.min finalStart finalEnd in
  let to := Z.max finalStart finalEnd in
  units s from to.

(** [String.prototype.substr(start, length)]: a negative [start] counts
    from the end. *)
Definition substr (s : jsstring) (start length : Z) : jsstring :=
  let size := len s in
  let intStart :=
    if start <? 0 then Z.max (size + start) 0 else Z.min start size in
  let intLength := Z.min (Z.max length 0) size in
  let intEnd := Z.min (intStart + intLength) size in
  units s intStart intEnd.

(** Code-unit-wise prefix test. *)
Fixpoint prefixb (p s : jsstring) : bool :=
  match p, s with
  | [], _ => true
  | _ :: _, [] => false
  | a :: p', b :: s' => N.eqb a b && prefixb p' s'
  end.

(** First offset of [s] at which [p] occurs, counted from [k]. *)
Fixpoint find_from (p s : jsstring) (k : nat) : option nat :=
  if prefixb p s then Some k
  else match s with
       | [] => None
       | _ :: s' => find_from p s' (S k)
       end.

(** [String.prototype.indexOf(searchString, position)]. *)
Definition indexOf (s p : jsstring) (position : Z) : Z :=
  let start := Z.min (Z.max position 0) (len s) in
  match find_from p (skipn (Z.to_nat start) s) (Z.to_nat start) with
  | Some k => Z.of_nat k
  | None => -1
  end.

(** White space and line terminators, as [String.prototype.trim] strips
    them. *)
Definition is_white_space (c : code_unit) : bool :=
  ((9 <=? c) && (c <=? 13)      (* TAB LF VT FF CR *)
   || (c =? 32) || (c =? 160) || (c =? 5760)
   || ((8192 <=? c) && (c <=? 8202))
   || (c =? 8232) || (c =? 8233) || (c =? 8239) || (c =? 8287)
   || (c =? 12288) || (c =? 65279))%N.

Fixpoint trimStart (s : jsstring) : jsstring :=
  match s with
  | c :: s' => if is_white_space c then trimStart s' else s
  | [] => []
  end.

Definition trimEnd (s : jsstring) : jsstring := rev (trimStart (rev s)).

Definition trim (s : jsstring) : jsstring := trimEnd (trimStart s).

(** The case tables are given for the code units up to U+00FF and for
    U+0130, the one code point whose lower case is longer than itself.  A
    unit outside this range is left as it is, which the host does for the
    uncased ones only: the tables serve the examples and the statements
    on texts of this range, and what is stated of every text is stated
    for every case conversion. *)
Definition lower_units (c : code_unit) : list code_unit :=
  (if (65 <=? c) && (c <=? 90) then [c + 32]
   else if (192 <=? c) && (c <=? 222) && negb (c =? 215) then [c + 32]
   else if c =? 304 then [105; 775]
   else [c])%N.

(** [String.prototype.toLowerCase]. *)
Definition toLowerCase (s : jsstring) : jsstring := flat_map lower_units s.

(** [Canonicalize] of the regular-expression semantics for the [i] flag
    without the [u] flag: the upper-case mapping when it is a single code
    unit, except that a non-ASCII unit never folds into ASCII.  It is
    given for the code units up to U+00FF, as the case tables above. *)
Definition Canonicalize (c : code_unit) : code_unit :=
  (if (97 <=? c) && (c <=? 122) then c - 32
   else if (224 <=? c) && (c <=? 254) && negb (c =? 247) then c - 32
   else if c =? 181 then 924
   else if c =? 255 then 376
   else c)%N.

(** [Array.prototype.slice(start, end)]. *)
Definition array_slice {A : Type} (a : list A) (start end_ : Z) : list A :=
  let size := len a in
  let k := if start <? 0 then Z.max (size + start) 0 else Z.min start size in
  let final := if end_ <? 0 then Z.max (size + end_) 0 else Z.min end_ size in
  firstn (Z.to_nat (final - k)) (skipn (Z.to_nat k) a).

(** Conversion of an integral number to a string, as a template literal
    does it: decimal digits, with a minus sign when negative. *)
Definition number_to_string (n : Z) : jsstring :=
  str (NilEmpty.string_of_int (Z.to_int n)).

End JS.
Import JS.

(* ------------------------------------------------------------------ *)
(** ** Regular expressions: [new RegExp(pattern, 'gi')] and [replace]  *)
(* ------------------------------------------------------------------ *)

(** The modelled fragment of the pattern grammar (no [u] flag): pattern
    characters, [.], [^], [$], escapes of syntax characters, [|], groups
    [( )] and [(?: )], and the quantifiers [*], [+], [?] with their lazy
    forms.  Classes, braces, the other escapes and the other [(?] groups
    are reported as [UnsupportedPattern]. *)
Module RegExp.

(** [^ $ \ . * + ? ( ) [ ] { } |] *)
Definition syntax_chars : list code_unit :=
  [94; 36; 92; 46; 42; 43; 63; 40; 41; 91; 93; 123; 125; 124]%N.

Definition is_syntax_char (c : code_unit) : bool :=
  existsb (N.eqb c) syntax_chars.

Inductive regex : Type :=
  | Empty
  | Char (c : code_unit)
  | Dot
  | AssertBegin
  | AssertEnd
  | Group (idx : nat) (r : regex)
  | Seq (r1 r2 : regex)
  | Alt (r1 r2 : regex)
  | Repeat (r : regex) (min : nat) (max : option nat) (greedy : bool)
           (parenIndex parenCount : nat).

(** *** Parsing a pattern *)

Inductive parse_result (A : Type) : Type :=
  | Parsed (a : A)
  | Invalid           (* the constructor throws a SyntaxError *)
  | Unsupported
  | NoFuel.

Arguments Parsed {A} a.
Arguments Invalid {A}.
Arguments Unsupported {A}.
Arguments NoFuel {A}.

(** A parser state: the tree read, the rest of the pattern and the number
    of capturing groups opened so far. *)
Definition parse_state : Type := (regex * jsstring * nat)%type.

Definition quantifier_of (c : code_unit) : option (nat * option nat) :=
  (if c =? 42 then Some (0%nat, None)              (* * *)
   else if c =? 43 then Some (1%nat, None)         (* + *)
   else if c =? 63 then Some (0%nat, Some 1%nat)   (* ? *)
   else None)%N.

(** An optional quantifier after [atom], with an optional lazy mark. *)
Definition parse_quantifier (atom : regex) (rest : jsstring)
    (parenIndex parenCount : nat) : regex * jsstring :=
  match rest with
  | q :: rest' =>
      match quantifier_of q with
      | Some (mn, mx) =>
          match rest' with
          | l :: rest'' =>
              if (l =? 63)%N
              then (Repeat atom mn mx false parenIndex parenCount, rest'')
              else (Repeat atom mn mx true parenIndex parenCount, rest')
          | [] => (Repeat atom mn mx true parenIndex parenCount, rest')
          end
      | None => (atom, rest)
      end
  | [] => (atom, [])
  end.

(** The closing parenthesis of a group, and its quantifier. *)
Definition close_group (atom : regex) (rest : jsstring)
    (parenIndex ngroups : nat) : parse_result parse_state :=
  match rest with
  | c :: rest' =>
      if (c =? 41)%N then
        let (r, rest'') :=
          parse_quantifier atom rest' parenIndex (ngroups - parenIndex) in
        Parsed (r, rest'', ngroups)
      else Invalid
  | [] => Invalid       (* unterminated group *)
  end.

(** What opens a group: [(?:] for a group without capture, any other [(?]
    for a construct that is not modelled, a plain parenthesis otherwise. *)
Inductive group_opening : Type :=
  | NonCapturing (body : jsstring)
  | OtherGroup
  | Capturing (body : jsstring).

Definition opening_of (after_paren : jsstring) : group_opening :=
  match after_paren with
  | c1 :: t1 =>
      if (c1 =? 63)%N then
        match t1 with
        | c2 :: t2 => if (c2 =? 58)%N then NonCapturing t2 else OtherGroup
        | [] => OtherGroup
        end
      else Capturing after_paren
  | [] => Capturing after_paren
  end.

Fixpoint parse_disjunction (fuel : nat) (s : jsstring) (ngroups : nat)
    {struct fuel} : parse_result parse_state :=
  match fuel with
  | O => NoFuel
  | S fuel' =>
      match parse_alternative fuel' s ngroups with
      | Parsed (a, c :: rest, n) =>
          if (c =? 124)%N then
            match parse_disjunction fuel' rest n with
            | Parsed (b, rest', n') => Parsed (Alt a b, rest', n')
            | e => e
            end
          else Parsed (a, c :: rest, n)
      | r => r
      end
  end

with parse_alternative (fuel : nat) (s : jsstring) (ngroups : nat)
    {struct fuel} : parse_result parse_state :=
  match fuel with
  | O => NoFuel
  | S fuel' =>
      match s with
      | [] => Parsed (Empty, [], ngroups)
      | c :: _ =>
          if ((c =? 124) || (c =? 41))%N then Parsed (Empty, s, ngroups)
          else
            match parse_term fuel' s ngroups with
            | Parsed (t, rest, n) =>
                match parse_alternative fuel' rest n with
                | Parsed (a, rest', n') => Parsed (Seq t a, rest', n')
                | e => e
                end
            | e => e
            end
      end
  end

with parse_term (fuel : nat) (s : jsstring) (ngroups : nat)
    {struct fuel} : parse_result parse_state :=
  match fuel with
  | O => NoFuel
  | S fuel' =>
      match s with
      | [] => Invalid
      | c :: s' =>
          if (c =? 94)%N then Parsed (AssertBegin, s', ngroups)
          else if (c =? 36)%N then Parsed (AssertEnd, s', ngroups)
          else if ((c =? 42) || (c =? 43) || (c =? 63) || (c =? 41))%N
          then Invalid                       (* nothing to repeat; stray ) *)
          else if ((c =? 91) || (c =? 93) || (c =? 123) || (c =? 125))%N
          then Unsupported
          else if (c =? 40)%N then
            match opening_of s' with
            | NonCapturing body =>
                match parse_disjunction fuel' body ngroups with
                | Parsed (r, rest, n) => close_group r rest ngroups n
                | e => e
                end
            | OtherGroup => Unsupported
            | Capturing body =>
                match parse_disjunction fuel' body (S ngroups) with
                | Parsed (r, rest, n) =>
                    close_group (Group (S ngroups) r) rest ngroups n
                | e => e
                end
            end
          else if (c =? 92)%N then
            match s' with
            | [] => Invalid                  (* \ at end of pattern *)
            | e :: s'' =>
                if is_syntax_char e then
                  let (r, rest) := parse_quantifier (Char e) s'' ngroups 0 in
                  Parsed (r, rest, ngroups)
                else Unsupported
            end
          else
            let atom := if (c =? 46)%N then Dot else Char c in
            let (r, rest) := parse_quantifier atom s' ngroups 0 in
            Parsed (r, rest, ngroups)
      end
  end.

(** A compiled expression: its tree and its number of capturing groups. *)
Record RegExp : Type := { source_tree : regex; nCaptures : nat }.

Definition parse_fuel (pattern : jsstring) : nat :=
  (3 * List.length pattern + 3)%nat.

(** [new RegExp(pattern, 'gi')]. *)
Definition RegExp_new (pattern : jsstring) : completion RegExp :=
  match parse_disjunction (parse_fuel pattern) pattern 0 with
  | Parsed (r, [], n) => Normal {| source_tree := r; nCaptures := n |}
  | Parsed (_, _ :: _, _) => Throw SyntaxError     (* unmatched ) *)
  | Invalid => Throw SyntaxError
  | Unsupported => Outside UnsupportedPattern
  | NoFuel => Outside OutOfFuel
  end.

(** *** Matching, with the backtracking order of the language *)

Record state : Type :=
  { endIndex : nat;                          (* offset reached *)
    rest : jsstring;                         (* input from that offset on *)
    captures : list (option (nat * nat)) }.  (* group n at index n - 1 *)

Inductive match_result : Type :=
  | Failure
  | Matched (y : state)
  | Exhausted.

Definition Continuation : Type := state -> match_result.
Definition Matcher : Type := state -> Continuation -> match_result.

Definition advance (x : state) (t : jsstring) : state :=
  {| endIndex := S (endIndex x); rest := t; captures := captures x |}.

Fixpoint set_nth {A : Type} (n : nat) (v : A) (l : list A) : list A :=
  match l, n with
  | [], _ => []
  | _ :: t, O => v :: t
  | a :: t, S n' => a :: set_nth n' v t
  end.

Definition set_capture (y : state) (idx from : nat) : state :=
  {| endIndex := endIndex y; rest := rest y;
     captures := set_nth (idx - 1) (Some (from, endIndex y)) (captures y) |}.

(** Groups [parenIndex + 1 .. parenIndex + parenCount] are reset at each
    iteration of a quantified atom. *)
Fixpoint clear_range (from count : nat) (caps : list (option (nat * nat)))
  : list (option (nat * nat)) :=
  match count with
  | O => caps
  | S k => clear_range (S from) k (set_nth from None caps)
  end.

Definition clear_captures (x : state) (parenIndex parenCount : nat) : state :=
  {| endIndex := endIndex x; rest := rest x;
     captures := clear_range parenIndex parenCount (captures x) |}.

Definition is_line_terminator (c : code_unit) : bool :=
  ((c =? 10) || (c =? 13) || (c =? 8232) || (c =? 8233))%N.

(** [RepeatMatcher]: an iteration that may be skipped ([min = 0]) has to
    consume input, which bounds the number of iterations by [min] plus the
    length of the input left; [fuel] counts them. *)
Fixpoint RepeatMatcher (fuel : nat) (m : Matcher) (min : nat)
    (max : option nat) (greedy : bool) (x : state) (c : Continuation)
    (parenIndex parenCount : nat) {struct fuel} : match_result :=
  match fuel with
  | O => Exhausted
  | S fuel' =>
      match max with
      | Some O => c x
      | _ =>
          let d : Continuation := fun y =>
            if Nat.eqb min 0 && Nat.eqb (endIndex y) (endIndex x)
            then Failure
            else RepeatMatcher fuel' m (Nat.pred min) (option_map Nat.pred max)
                               greedy y c parenIndex parenCount in
          let xr := clear_captures x parenIndex parenCount in
          if negb (Nat.eqb min 0) then m xr d
          else if greedy then
            match m xr d with
            | Failure => c x
            | z => z
            end
          else
            match c x with
            | Failure => m xr d
            | z => z
            end
      end
  end.

Section Engine.

(** The canonicalization of the [i] flag, through which the matcher
    compares two code units.  The engine is written over it. *)
Variable canonicalize : code_unit -> code_unit.

Fixpoint compile (r : regex) : Matcher :=
  match r with
  | Empty => fun x c => c x
  | Char ch => fun x c =>
      match rest x with
      | a :: t =>
          if (canonicalize a =? canonicalize ch)%N then c (advance x t)
          else Failure
      | [] => Failure
      end
  | Dot => fun x c =>
      match rest x with
      | a :: t => if is_line_terminator a then Failure else c (advance x t)
      | [] => Failure
      end
  | AssertBegin => fun x c => if Nat.eqb (endIndex x) 0 then c x else Failure
  | AssertEnd => fun x c =>
      match rest x with
      | [] => c x
      | _ :: _ => Failure
      end
  | Group idx r' => fun x c =>
      compile r' x (fun y => c (set_capture y idx (endIndex x)))
  | Seq r1 r2 => fun x c => compile r1 x (fun y => compile r2 y c)
  | Alt r1 r2 => fun x c =>
      match compile r1 x c with
      | Failure => compile r2 x c
      | z => z
      end
  | Repeat r' min max greedy parenIndex parenCount => fun x c =>
      RepeatMatcher (S (min + List.length (rest x))) (compile r') min max
                    greedy x c parenIndex parenCount
  end.

(** One match attempt of [rx] at offset [pos], where [input] is the part
    of the subject from [pos] on. *)
Definition match_at (rx : RegExp) (pos : nat) (input : jsstring)
  : match_result :=
  compile (source_tree rx)
          {| endIndex := pos; rest := input;
             captures := repeat None (nCaptures rx) |}
          (fun y => Matched y).

(** *** Replacement *)

Definition digit_value (c : code_unit) : option nat :=
  if ((48 <=? c) && (c <=? 57))%N then Some (N.to_nat (c - 48)) else None.

Definition capture_text (subject : jsstring)
    (caps : list (option (nat * nat))) (index : nat) : jsstring :=
  match nth_error caps (index - 1) with
  | Some (Some (from, to)) => units subject (Z.of_nat from) (Z.of_nat to)
  | _ => []
  end.

(** [GetSubstitution] without named groups: [$$], [$&], [$`], [$'] and
    [$n], [$nn] for the groups that exist; any other [$] stands for
    itself. *)
Fixpoint GetSubstitution (matched subject : jsstring) (position : nat)
    (caps : list (option (nat * nat))) (template : jsstring) : jsstring :=
  let m := List.length caps in
  match template with
  | [] => []
  | c :: t1 =>
      if negb (c =? 36)%N
      then c :: GetSubstitution matched subject position caps t1
      else
      match t1 with
      | [] => [36%N]
      | c1 :: t2 =>
          if (c1 =? 36)%N then
            36%N :: GetSubstitution matched subject position caps t2
          else if (c1 =? 38)%N then
            matched ++ GetSubstitution matched subject position caps t2
          else if (c1 =? 96)%N then
            firstn position subject
              ++ GetSubstitution matched subject position caps t2
          else if (c1 =? 39)%N then
            skipn (position + List.length matched) subject
              ++ GetSubstitution matched subject position caps t2
          else
            match digit_value c1 with
            | None => 36%N :: GetSubstitution matched subject position caps t1
            | Some d1 =>
                let one_digit :=
                  if (1 <=? d1)%nat && (d1 <=? m)%nat
                  then capture_text subject caps d1
                         ++ GetSubstitution matched subject position caps t2
                  else 36%N :: GetSubstitution matched subject position caps t1
                in
                match t2 with
                | c2 :: t3 =>
                    match digit_value c2 with
                    | Some d2 =>
                        let index := (10 * d1 + d2)%nat in
                        if (index <=? m)%nat then
                          if (1 <=? index)%nat
                          then capture_text subject caps index
                                 ++ GetSubstitution matched subject position
                                      caps t3
                          else 36%N ::
                                 GetSubstitution matched subject position caps t1
                        else one_digit
                    | None => one_digit
                    end
                | [] => one_digit
                end
            end
      end
  end.

(** The scan of a global replace.  [pos] is the offset of [input] in
    [subject]; [skip] counts the units of the last match still to pass.
    A match attempt is made at every offset from the end of the last match
    up to the length of the subject; after an empty match the scan moves on
    by one unit. *)
Fixpoint replace_scan (rx : RegExp) (template subject : jsstring)
    (skip pos : nat) (input : jsstring) {struct input}
  : completion jsstring :=
  match skip with
  | S k =>
      match input with
      | [] => Normal []
      | _ :: input' => replace_scan rx template subject k (S pos) input'
      end
  | O =>
      match match_at rx pos input with
      | Exhausted => Outside OutOfFuel
      | Failure =>
          match input with
          | [] => Normal []
          | c :: input' =>
              out <- replace_scan rx template subject 0 (S pos) input' ;;
              Normal (c :: out)
          end
      | Matched y =>
          let n := (endIndex y - pos)%nat in
          let replacement :=
            GetSubstitution (firstn n input) subject pos (captures y)
                            template in
          match input with
          | [] => Normal replacement
          | c :: input' =>
              match n with
              | O =>
                  out <- replace_scan rx template subject 0 (S pos) input' ;;
                  Normal (replacement ++ c :: out)
              | S k =>
                  out <- replace_scan rx template subject k (S pos) input' ;;
                  Normal (replacement ++ out)
              end
          end
      end
  end.

(** [subject.replace(rx, template)] for a global [rx]. *)
Definition replace (subject : jsstring) (rx : RegExp) (template : jsstring)
  : completion jsstring :=
  replace_scan rx template subject 0 0 subject.

End Engine.

End RegExp.
Import RegExp.

(* ------------------------------------------------------------------ *)
(** ** The document store and the tool handlers                        *)
(* ------------------------------------------------------------------ *)

Record Metadata : Type :=
  { pages : Z;
    size : Z;
    createdAt : Z;               (* a Date, as its time value *)
    info : option jsstring }.    (* carried through, never inspected *)

Record PDFDocument : Type :=
  { id : jsstring;
    filePath : jsstring;
    filename : jsstring;
    content : jsstring;
    metadata : Metadata }.

Record SearchMatch : Type :=
  { position : Z;
    context : jsstring;
    preview : jsstring }.

Record SearchResult : Type :=
  { docId : jsstring;
    result_filename : jsstring;
    totalMatches : Z;
    matches : list SearchMatch;
    result_metadata : Metadata }.

(** [pdfDocuments]: an object used as a map from id to document.  Its own
    properties are kept in creation order, the order [Object.values]
    enumerates them in (no id is an array index). *)
Definition store : Type := list (jsstring * PDFDocument).

Definition jsstring_eqb (a b : jsstring) : bool :=
  if list_eq_dec N.eq_dec a b then true else false.

Fixpoint own_property (st : store) (key : jsstring) : option PDFDocument :=
  match st with
  | [] => None
  | (k, d) :: st' => if jsstring_eqb k key then Some d else own_property st' key
  end.

(** [pdfDocuments[key] = d]: an existing property keeps its place. *)
Fixpoint set_property (st : store) (key : jsstring) (d : PDFDocument) : store :=
  match st with
  | [] => [(key, d)]
  | (k, d') :: st' =>
      if jsstring_eqb k key then (k, d) :: st'
      else (k, d') :: set_property st' key d
  end.

(** [delete pdfDocuments[key]]. *)
Definition delete_property (st : store) (key : jsstring) : store :=
  filter (fun kd => negb (jsstring_eqb (fst kd) key)) st.

Definition Object_values (st : store) : list PDFDocument := map snd st.
Definition Object_keys (st : store) : list jsstring := map fst st.

(** The properties every object inherits from [Object.prototype]. *)
Definition prototype_properties : list jsstring :=
  map str ["constructor"; "__defineGetter__"; "__defineSetter__";
           "hasOwnProperty"; "__lookupGetter__"; "__lookupSetter__";
           "isPrototypeOf"; "propertyIsEnumerable"; "toString"; "valueOf";
           "__proto__"; "toLocaleString"]%string.

(** The value of the property read [pdfDocuments[key]]. *)
Inductive property_value : Type :=
  | Undefined
  | Document (d : PDFDocument)
  | Inherited.        (* a function or object of the prototype: truthy,
                         without a [content] or [filename] *)

Definition get_property (st : store) (key : jsstring) : property_value :=
  match own_property st key with
  | Some d => Document d
  | None =>
      if existsb (jsstring_eqb key) prototype_properties then Inherited
      else Undefined
  end.

(** *** Identifiers *)

(** What a registration reads from its environment: the clock at
    [Date.now()], the text of [Math.random().toString(36)], and the clock
    at [new Date()]. *)
Record Env : Type :=
  { now : Z;
    random36 : jsstring;
    created : Z }.

(** [`pdf_${Date.now()}_${Math.random().toString(36).substr(2, 9)}`] *)
Definition make_docId (e : Env) : jsstring :=
  str "pdf_" ++ number_to_string (now e) ++ str "_" ++ substr (random36 e) 2 9.

(** [path.basename(p)] of the POSIX flavour: the last portion of [p], the
    trailing separators ignored. *)
Fixpoint take_until_slash (s : jsstring) : jsstring :=
  match s with
  | [] => []
  | c :: s' => if (c =? 47)%N then [] else c :: take_until_slash s'
  end.

Fixpoint drop_slashes (s : jsstring) : jsstring :=
  match s with
  | c :: s' => if (c =? 47)%N then drop_slashes s' else s
  | [] => []
  end.

Definition basename (p : jsstring) : jsstring :=
  rev (take_until_slash (drop_slashes (rev p))).

(** *** register-pdf *)

(** The outcome of [fs.readFileSync] followed by [pdfParse]. *)
Record PdfData : Type :=
  { text : jsstring;
    numpages : option Z;
    parsed_info : option jsstring;
    buffer_length : Z }.

Inductive Extraction : Type :=
  | Extracted (p : PdfData)
  | ExtractionFailed (message : jsstring).

Inductive RegisterResponse : Type :=
  | Registered (docId filename : jsstring) (pages contentLength : Z)
  | RegisterError (error : jsstring).

(** [parsed.numpages || 0] *)
Definition pages_or_zero (n : option Z) : Z :=
  match n with
  | Some k => k
  | None => 0
  end.

Definition new_document (e : Env) (path : jsstring) (p : PdfData)
  : PDFDocument :=
  {| id := make_docId e;
     filePath := path;
     filename := basename path;
     content := text p;
     metadata := {| pages := pages_or_zero (numpages p);
                    size := buffer_length p;
                    createdAt := created e;
                    info := parsed_info p |} |}.

Definition register_pdf (e : Env) (path : jsstring) (x : Extraction)
    (st : store) : store * RegisterResponse :=
  match x with
  | Extracted p =>
      let document := new_document e path p in
      (set_property st (id document) document,
       Registered (id document) (filename document)
                  (pages (metadata document)) (len (text p)))
  | ExtractionFailed message => (st, RegisterError message)
  end.

(** *** registerPDFsFromFolder: the loop over the files of the folder;
    a file that fails to load is skipped. *)
Fixpoint registerPDFsFromFolder (files : list (Env * jsstring * Extraction))
    (st : store) (registeredIds : list jsstring)
  : store * list jsstring :=
  match files with
  | [] => (st, registeredIds)
  | (e, path, Extracted p) :: files' =>
      let document := new_document e path p in
      registerPDFsFromFolder files'
        (set_property st (id document) document)
        (registeredIds ++ [id document])
  | (_, _, ExtractionFailed _) :: files' =>
      registerPDFsFromFolder files' st registeredIds
  end.

(** *** search-pdfs *)

Record SearchPayload : Type :=
  { payload_query : jsstring;
    totalDocuments : Z;
    resultsFound : Z;
    results : list SearchResult }.

(** [`**${query}**`] *)
Definition highlight_template (query : jsstring) : jsstring :=
  str "**" ++ query ++ str "**".

(** [context.replace(new RegExp(query, 'gi'), `**${query}**`)] *)
Definition make_preview (canonicalize : code_unit -> code_unit)
    (context query : jsstring) : completion jsstring :=
  rx <- RegExp_new query ;;
  replace canonicalize context rx (highlight_template query).

(** The two services of the host that rest on tables or grammars larger
    than what is modelled of them: the case conversion and the preview
    step.  The handler is written over a host; [engine_host] is the host
    of the engine above with a given case conversion and canonicalization,
    and [modelled_host] the one with the tables above. *)
Record Host : Type :=
  { host_toLowerCase : jsstring -> jsstring;
    host_preview : jsstring -> jsstring -> completion jsstring }.

Definition engine_host (lower : jsstring -> jsstring)
    (canonicalize : code_unit -> code_unit) : Host :=
  {| host_toLowerCase := lower;
     host_preview := make_preview canonicalize |}.

Definition modelled_host : Host := engine_host toLowerCase Canonicalize.

(** A default parameter value: it stands in for an omitted argument. *)
Definition or_default (argument : option Z) (default : Z) : Z :=
  match argument with
  | Some v => v
  | None => default
  end.

Section SearchHandler.

Variable h : Host.

(** The [while] loop over the occurrences in one document.  Every turn
    that does not leave the loop adds a match, and the loop is left once
    [matches.length >= maxResults]: [fuel] counts the turns. *)
Fixpoint scan_loop (fuel : nat) (doc : PDFDocument)
    (query queryLower contentLower : jsstring) (maxResults contextLength : Z)
    (startIndex : Z) (acc : list SearchMatch) {struct fuel}
  : completion (list SearchMatch) :=
  match fuel with
  | O => Outside OutOfFuel
  | S fuel' =>
      if startIndex <? len contentLower then
        let index := indexOf contentLower queryLower startIndex in
        if index =? -1 then Normal acc
        else
          let contextStart := Z.max 0 (index - contextLength) in
          let contextEnd :=
            Z.min (len (content doc)) (index + len query + contextLength) in
          let context :=
            substring (content doc) contextStart (Some contextEnd) in
          let trimmed := trim context in
          highlighted <- host_preview h context query ;;
          let acc' := acc ++ [ {| position := index;
                                  context := trimmed;
                                  preview := highlighted |} ] in
          let startIndex' := index + len query in
          if len acc' >=? maxResults then Normal acc'
          else scan_loop fuel' doc query queryLower contentLower
                         maxResults contextLength startIndex' acc'
      else Normal acc
  end.

Definition scan_fuel (maxResults : Z) : nat := S (Z.to_nat maxResults).

Definition scan_document (doc : PDFDocument) (query : jsstring)
    (maxResults contextLength : Z) : completion (list SearchMatch) :=
  scan_loop (scan_fuel maxResults) doc query (host_toLowerCase h query)
            (host_toLowerCase h (content doc)) maxResults contextLength 0 [].

Definition make_result (doc : PDFDocument) (found : list SearchMatch)
    (maxResults : Z) : SearchResult :=
  {| docId := id doc;
     result_filename := filename doc;
     totalMatches := len found;
     matches := array_slice found 0 (Z.min (len found) maxResults);
     result_metadata := metadata doc |}.

(** The [for] loop over the documents. *)
Fixpoint search_loop (docs : list PDFDocument) (query : jsstring)
    (maxResults contextLength : Z) (acc : list SearchResult)
  : completion (list SearchResult) :=
  match docs with
  | [] => Normal acc
  | doc :: docs' =>
      found <- scan_document doc query maxResults contextLength ;;
      let acc' :=
        if len found >? 0 then acc ++ [make_result doc found maxResults]
        else acc in
      if len acc' >=? maxResults then Normal acc'
      else search_loop docs' query maxResults contextLength acc'
  end.

(** The handler: [{ query, maxResults = 10, contextLength = 200 }]. *)
Definition search_pdfs (query : jsstring) (maxResults contextLength : option Z)
    (st : store) : completion SearchPayload :=
  let maxResults := or_default maxResults 10 in
  let contextLength := or_default contextLength 200 in
  found <- search_loop (Object_values st) query maxResults contextLength [] ;;
  Normal {| payload_query := query;
            totalDocuments := len (Object_keys st);
            resultsFound := len found;
            results := found |}.

End SearchHandler.

(** *** get-pdf-content *)

Inductive ContentResponse : Type :=
  | ContentOk (docId filename : jsstring) (startChar contentLength : Z)
              (content : jsstring)
  | ContentError (error : jsstring).

Definition get_pdf_content (docId : jsstring) (startChar length : option Z)
    (st : store) : completion ContentResponse :=
  let startChar := or_default startChar 0 in
  match get_property st docId with
  | Undefined => Normal (ContentError (str "Document not found"))
  | Inherited => Throw TypeError     (* [doc.content] is undefined *)
  | Document doc =>
      let slice :=
        match length with
        | Some l =>
            if l =? 0 then substring (content doc) startChar None
            else substring (content doc) startChar (Some (startChar + l))
        | None => substring (content doc) startChar None
        end in
      Normal (ContentOk (id doc) (filename doc) startChar (len slice) slice)
  end.

(** *** list-pdfs *)

Record ListEntry : Type :=
  { entry_docId : jsstring;
    entry_filename : jsstring;
    entry_pages : Z;
    entry_contentLength : Z;
    entry_createdAt : Z;
    entry_filePath : jsstring }.

Definition list_pdfs (st : store) : Z * list ListEntry :=
  let documentList :=
    map (fun doc => {| entry_docId := id doc;
                       entry_filename := filename doc;
                       entry_pages := pages (metadata doc);
                       entry_contentLength := len (content doc);
                       entry_createdAt := createdAt (metadata doc);
                       entry_filePath := filePath doc |})
        (Object_values st) in
  (len documentList, documentList).

(** *** remove-pdf *)

Inductive RemoveResponse : Type :=
  | Removed (filename : option jsstring) (docId : jsstring)
  | RemoveError (error : jsstring).

Definition remove_pdf (docId : jsstring) (st : store)
  : store * RemoveResponse :=
  match get_property st docId with
  | Undefined => (st, RemoveError (str "Document not found"))
  | Inherited => (st, Removed None docId)
  | Document doc =>
      (delete_property st docId, Removed (Some (filename doc)) docId)
  end.

(* ------------------------------------------------------------------ *)
(** ** Notions used to state the properties                            *)
(* ------------------------------------------------------------------ *)

(** The context window of a match at [index]: the units of the content
    between [max(0, index - contextLength)] and
    [min(length, index + query.length + contextLength)]. *)
Definition window (doc : PDFDocument) (query : jsstring) (contextLength : Z)
    (index : Z) : jsstring :=
  substring (content doc) (Z.max 0 (index - contextLength))
            (Some (Z.min (len (content doc))
                         (index + len query + contextLength))).

(** The match recorded for an occurrence at [index] whose preview is
    [highlighted]. *)
Definition recorded_match (doc : PDFDocument) (query : jsstring)
    (contextLength : Z) (index : Z) (highlighted : jsstring) : SearchMatch :=
  {| position := index;
     context := trim (window doc query contextLength index);
     preview := highlighted |}.

(** A query without syntax characters of the pattern grammar. *)
Definition plain (query : jsstring) : bool :=
  forallb (fun c => negb (is_syntax_char c)) query.

(** The tree of a pattern that is a plain text. *)
Definition literal_tree (q : jsstring) : regex :=
  fold_right (fun c a => Seq (Char c) a) Empty q.

Definition literal_regexp (q : jsstring) : RegExp :=
  {| source_tree := literal_tree q; nCaptures := 0 |}.

(** A parse that did not run out of budget and left a rest of a length
    within [bound]. *)
Definition parse_within (bound : nat -> Prop) (r : parse_result parse_state)
  : Prop :=
  match r with
  | NoFuel => False
  | Parsed (_, rest, _) => bound (List.length rest)
  | _ => True
  end.

(** A matcher state over an input of [total] units. *)
Definition state_of (total : nat) (x : state) : Prop :=
  (endIndex x + List.length (rest x) = total)%nat.

(** A continuation that does not run out of budget from [x] on. *)
Definition continues (total : nat) (x : state) (c : Continuation) : Prop :=
  forall y, state_of total y -> (endIndex x <= endIndex y)%nat ->
            c y <> Exhausted.

(** [q] occurs at the head of [s], up to the case folding of the [i]
    flag. *)
Fixpoint ci_prefixb (canon : code_unit -> code_unit) (q s : jsstring)
  : bool :=
  match q, s with
  | [], _ => true
  | _ :: _, [] => false
  | a :: q', b :: s' => (canon b =? canon a)%N && ci_prefixb canon q' s'
  end.

(** [s] with every case-insensitive occurrence of [q], taken left to right
    without overlap, replaced by the marker text [**q**]; [skip] units of
    an occurrence are still to pass.  The empty [q] occurs before every
    unit and at the end. *)
Fixpoint highlight_all (canon : code_unit -> code_unit) (q : jsstring)
    (skip : nat) (s : jsstring) : jsstring :=
  match skip, s with
  | S k, _ :: s' => highlight_all canon q k s'
  | S _, [] => []
  | O, [] => if ci_prefixb canon q [] then highlight_template q else []
  | O, c :: s' =>
      if ci_prefixb canon q s then
        highlight_template q ++
          match List.length q with
          | O => c :: highlight_all canon q 0 s'
          | S n => highlight_all canon q n s'
          end
      else c :: highlight_all canon q 0 s'
  end.

(** [s] with every such occurrence kept as it is written and put between
    two [**] markers. *)
Fixpoint wrap_all (canon : code_unit -> code_unit) (q : jsstring)
    (skip : nat) (s : jsstring) : jsstring :=
  match skip, s with
  | S k, _ :: s' => wrap_all canon q k s'
  | S _, [] => []
  | O, [] => []
  | O, c :: s' =>
      if ci_prefixb canon q s then
        str "**" ++ firstn (List.length q) s ++ str "**" ++
          match List.length q with
          | O => c :: wrap_all canon q 0 s'
          | S n => wrap_all canon q n s'
          end
      else c :: wrap_all canon q 0 s'
  end.

(** [q] occurs at the head of [s], up to the unit-wise folding [f]. *)
Fixpoint folded_prefixb (f : code_unit -> code_unit) (q s : jsstring) : bool :=
  match q, s with
  | [], _ => true
  | _ :: _, [] => false
  | a :: q', b :: s' => (f a =? f b)%N && folded_prefixb f q' s'
  end.

(** The offsets of the occurrences of [q] in a text, up to [f], taken left
    to right without overlap: after an occurrence the scan resumes
    [length q] units further.  [s] is the text from the offset [pos] on, and
    [skip] units of the last occurrence are still to pass. *)
Fixpoint occurrences (f : code_unit -> code_unit) (q : jsstring) (skip : nat)
    (pos : Z) (s : jsstring) : list Z :=
  match s with
  | [] => []
  | _ :: s' =>
      match skip with
      | S k => occurrences f q k (pos + 1) s'
      | O =>
          if folded_prefixb f q s
          then pos :: occurrences f q (List.length q - 1) (pos + 1) s'
          else occurrences f q 0 (pos + 1) s'
      end
  end.

(** The lower case of a unit that has a one-unit lower case. *)
Definition lower_unit (c : code_unit) : code_unit :=
  match lower_units c with
  | [l] => l
  | _ => c
  end.

(** A text of code units up to U+00FF: on such texts the case tables above
    are those of the host. *)
Definition latin1 (s : jsstring) : bool :=
  forallb (fun c => (c <? 256)%N) s.

(** The caps of a search with [maxResults = k]: at most [k] documents, at
    most [k] matches each, and a count that is the length of the list. *)
Definition cap_respected (k : Z) (p : SearchPayload) : Prop :=
  len (results p) <= k /\
  Forall (fun r => len (matches r) <= k /\ totalMatches r = len (matches r))
         (results p).

(** A call that is rejected yields no success payload. *)
Definition rejected {A : Type} (outcome : completion A) : Prop :=
  forall p, outcome <> Normal p.

(** What identifies a registration among the others: the clock value and
    the nine units kept of the random text. *)
Definition id_key (e : Env) : Z * jsstring :=
  (now e, substr (random36 e) 2 9).

(** A sequence of [register-pdf] calls. *)
Fixpoint register_all (calls : list (Env * jsstring * Extraction))
    (st : store) : store * list RegisterResponse :=
  match calls with
  | [] => (st, [])
  | (e, path, x) :: calls' =>
      let (st1, r) := register_pdf e path x st in
      let (st2, rs) := register_all calls' st1 in
      (st2, r :: rs)
  end.

(** The ids a sequence of responses returns, and the keys of the calls
    that return one. *)
Definition returned_ids (rs : list RegisterResponse) : list jsstring :=
  flat_map (fun r => match r with
                     | Registered i _ _ _ => [i]
                     | RegisterError _ => []
                     end) rs.

Definition registration_keys (calls : list (Env * jsstring * Extraction))
  : list (Z * jsstring) :=
  flat_map (fun call => match call with
                        | (e, _, Extracted _) => [id_key e]
                        | (_, _, ExtractionFailed _) => []
                        end) calls.

(** The id as a function of the key. *)
Definition docId_of_key (k : Z * jsstring) : jsstring :=
  str "pdf_" ++ number_to_string (fst k) ++ str "_" ++ snd k.

(** Documents and stores of the examples. *)
Definition sample_document (i c : jsstring) : PDFDocument :=
  {| id := i;
     filePath := str "/docs/sample.pdf";
     filename := str "sample.pdf";
     content := c;
     metadata :=
       {| pages := 1; size := 1024; createdAt := 0; info := None |} |}.

Definition single_store (c : jsstring) : store :=
  [(str "pdf_1_a", sample_document (str "pdf_1_a") c)].

Definition fox_store : store :=
  single_store (str "the quick brown fox the quick fox").

(** Registrations of the examples: one file read twice within one
    millisecond. *)
Definition sample_env (random : string) : Env :=
  {| now := 1700000000000; random36 := str random; created := 1700000000000 |}.

Definition sample_call (random : string) : Env * jsstring * Extraction :=
  (sample_env random, str "/docs/sample.pdf",
   Extracted {| text := str "the quick brown fox";
                numpages := Some 1;
                parsed_info := None;
                buffer_length := 1024 |}).

Definition distinct_calls : list (Env * jsstring * Extraction) :=
  [sample_call "0.4fzyo82mvyr"; sample_call "0.k2j8xq0c1ab"].

Definition colliding_calls : list (Env * jsstring * Extraction) :=
  [sample_call "0.4fzyo82mvyr"; sample_call "0.4fzyo82mvyr"].

(** The result expected for the sample document of the examples. *)
Definition sample_result (total : Z) (ms : list SearchMatch) : SearchResult :=
  {| docId := str "pdf_1_a";
     result_filename := str "sample.pdf";
     totalMatches := total;
     matches := ms;
     result_metadata :=
       {| pages := 1; size := 1024; createdAt := 0; info := None |} |}.

(** A text that opens with U+0130, LATIN CAPITAL LETTER I WITH DOT ABOVE. *)
Definition dotted_I_text : jsstring := 304%N :: str " ab".

(** The store as the handlers keep it: no key twice, and under each key a
    document with that id. *)
Definition store_ok (st : store) : Prop :=
  NoDup (Object_keys st) /\ Forall (fun kd => id (snd kd) = fst kd) st.

(** The operations that change the store. *)
Inductive operation : Type :=
  | DoRegister (e : Env) (path : jsstring) (x : Extraction)
  | DoRegisterFolder (files : list (Env * jsstring * Extraction))
  | DoRemove (docId : jsstring).

Definition apply_operation (st : store) (o : operation) : store :=
  match o with
  | DoRegister e path x => fst (register_pdf e path x st)
  | DoRegisterFolder files => fst (registerPDFsFromFolder files st [])
  | DoRemove docId => fst (remove_pdf docId st)
  end.

Definition run_operations (ops : list operation) (st : store) : store :=
  fold_left apply_operation ops st.

(** The entry [list-pdfs] shows for a document. *)
Definition entry_of (doc : PDFDocument) : ListEntry :=
  {| entry_docId := id doc;
     entry_filename := filename doc;
     entry_pages := pages (metadata doc);
     entry_contentLength := len (content doc);
     entry_createdAt := createdAt (metadata doc);
     entry_filePath := filePath doc |}.

(** A key that is not the name of an inherited property. *)
Definition not_inherited (key : jsstring) : bool :=
  negb (existsb (jsstring_eqb key) prototype_properties).

(** A document in which the scan finds the query. *)
Definition has_match (h : Host) (query : jsstring) (doc : PDFDocument) : bool :=
  let contentLower := host_toLowerCase h (content doc) in
  (0 <? len contentLower)
  && negb (indexOf contentLower (host_toLowerCase h query) 0 =? -1).

(** Offsets in increasing order, each at least [d] after the one before. *)
Fixpoint spaced (d : Z) (l : list Z) : Prop :=
  match l with
  | a :: ((b :: _) as t) => a + d <= b /\ spaced d t
  | _ => True
  end.

(** The content slice a [get-pdf-content] call answers with. *)
Definition slice_of (r : completion ContentResponse) : jsstring :=
  match r with
  | Normal (ContentOk _ _ _ _ slice) => slice
  | _ => []
  end.

(** A store of two documents. *)
Definition pair_store (c1 c2 : jsstring) : store :=
  [(str "pdf_1_a", sample_document (str "pdf_1_a") c1);
   (str "pdf_2_b", sample_document (str "pdf_2_b") c2)].

(* ------------------------------------------------------------------ *)
(** ** Facts about the built-ins                                       *)
(* ------------------------------------------------------------------ *)

Section Builtins.

Lemma len_nonneg {A : Type} (l : list A) : 0 <= len l.
Proof. unfold len. lia. Qed.

Lemma len_app {A : Type} (l1 l2 : list A) : len (l1 ++ l2) = len l1 + len l2.
Proof. unfold len. rewrite length_app. lia. Qed.

Lemma len_snoc {A : Type} (l : list A) (x : A) : len (l ++ [x]) = len l + 1.
Proof. rewrite len_app. reflexivity. Qed.

Lemma units_to_end (s : jsstring) (n : Z) :
  units s n (len s) = skipn (Z.to_nat n) s.
Proof.
  unfold units, len. apply firstn_all2. rewrite length_skipn. lia.
Qed.

Lemma units_empty (s : jsstring) (a b : Z) : b <= a -> units s a b = [].
Proof.
  intros H. unfold units. replace (Z.to_nat (b - a)) with O by lia.
  reflexivity.
Qed.

(** Without an end, [substring] yields what follows the first [start]
    units. *)
Lemma substring_to_end (s : jsstring) (start : Z) :
  substring s start None = skipn (Z.to_nat start) s.
Proof.
  unfold substring. pose proof (len_nonneg s) as Hs.
  rewrite (Z.max_l (len s) 0) by lia. rewrite (Z.min_id (len s)).
  replace (Z.max (Z.min (Z.max start 0) (len s)) (len s)) with (len s) by lia.
  replace (Z.min (Z.min (Z.max start 0) (len s)) (len s))
    with (Z.min (Z.max start 0) (len s)) by lia.
  rewrite units_to_end.
  destruct (Z_le_gt_dec (len s) start) as [Hle | Hgt].
  - unfold len in *. rewrite !skipn_all2; [reflexivity | lia | lia].
  - f_equal. lia.
Qed.

(** Within ordered bounds [substring] is the plain range of units. *)
Lemma substring_ordered (s : jsstring) (a b : Z) :
  0 <= a <= b -> b <= len s -> substring s a (Some b) = units s a b.
Proof.
  intros Hab Hb. unfold substring. f_equal; lia.
Qed.

Lemma array_slice_all {A : Type} (a : list A) :
  array_slice a 0 (len a) = a.
Proof.
  unfold array_slice. pose proof (len_nonneg a) as Ha.
  destruct (0 <? 0) eqn:E0; [apply Z.ltb_lt in E0; lia |].
  destruct (len a <? 0) eqn:E1; [apply Z.ltb_lt in E1; lia |].
  rewrite Z.min_id. replace (Z.min 0 (len a)) with 0 by lia.
  simpl. rewrite Z.sub_0_r. apply firstn_all2. unfold len. lia.
Qed.

Lemma in_firstn {A : Type} (n : nat) (l : list A) (x : A) :
  In x (firstn n l) -> In x l.
Proof.
  intros H. rewrite <- (firstn_skipn n l). apply in_or_app. left. exact H.
Qed.

Lemma in_skipn {A : Type} (n : nat) (l : list A) (x : A) :
  In x (skipn n l) -> In x l.
Proof.
  intros H. rewrite <- (firstn_skipn n l). apply in_or_app. right. exact H.
Qed.

Lemma array_slice_incl {A : Type} (a : list A) (s e : Z) (x : A) :
  In x (array_slice a s e) -> In x a.
Proof.
  unfold array_slice. intros H.
  apply in_firstn in H. apply in_skipn in H. exact H.
Qed.

Lemma array_slice_length {A : Type} (a : list A) (e : Z) :
  0 <= e -> len (array_slice a 0 e) <= e.
Proof.
  intros He. unfold array_slice, len.
  destruct (0 <? 0) eqn:E0; [apply Z.ltb_lt in E0; lia |].
  destruct (e <? 0) eqn:E1; [apply Z.ltb_lt in E1; lia |].
  rewrite length_firstn. lia.
Qed.

End Builtins.

(* ------------------------------------------------------------------ *)
(** ** The two loops of the search                                     *)
(* ------------------------------------------------------------------ *)

Section ScanLoop.

Variable h : Host.
Variable doc : PDFDocument.
Variables query queryLower contentLower : jsstring.
Variables maxResults contextLength : Z.

Let scan (fuel : nat) (startIndex : Z) (acc : list SearchMatch) :=
  scan_loop h fuel doc query queryLower contentLower maxResults contextLength
            startIndex acc.

(** One turn of the [while] loop. *)
Lemma scan_loop_step (fuel : nat) (startIndex : Z) (acc : list SearchMatch) :
  scan (S fuel) startIndex acc =
  if startIndex <? len contentLower then
    let index := indexOf contentLower queryLower startIndex in
    if index =? -1 then Normal acc
    else
      highlighted <-
        host_preview h (window doc query contextLength index) query ;;
      let acc' :=
        acc ++ [recorded_match doc query contextLength index highlighted] in
      if len acc' >=? maxResults then Normal acc'
      else scan fuel (index + len query) acc'
  else Normal acc.
Proof. reflexivity. Qed.

(** A property of the recorded matches is a property of all the matches
    returned. *)
Lemma scan_loop_inv (P : SearchMatch -> Prop) :
  (forall index highlighted,
      host_preview h (window doc query contextLength index) query
        = Normal highlighted ->
      P (recorded_match doc query contextLength index highlighted)) ->
  forall fuel startIndex acc found,
    Forall P acc ->
    scan fuel startIndex acc = Normal found ->
    Forall P found.
Proof.
  intros HP.
  induction fuel as [| fuel IH]; intros startIndex acc found Hacc Hrun.
  - discriminate Hrun.
  - rewrite scan_loop_step in Hrun.
    destruct (startIndex <? len contentLower);
      [| injection Hrun as <-; exact Hacc].
    cbv zeta in Hrun.
    destruct (indexOf contentLower queryLower startIndex =? -1);
      [injection Hrun as <-; exact Hacc |].
    destruct (host_preview h _ query) as [pv | e | b] eqn:Hpv;
      cbn [bind] in Hrun; try discriminate Hrun.
    assert (Hacc' : Forall P (acc ++ [recorded_match doc query contextLength
              (indexOf contentLower queryLower startIndex) pv])).
    { apply Forall_app. split; [exact Hacc |].
      constructor; [apply HP; exact Hpv | constructor]. }
    destruct (len _ >=? maxResults).
    + injection Hrun as <-. exact Hacc'.
    + eapply IH; [exact Hacc' | exact Hrun].
Qed.

(** The loop is left as soon as the cap is reached. *)
Lemma scan_loop_length :
  forall fuel startIndex acc found,
    scan fuel startIndex acc = Normal found ->
    len found <= Z.max (len acc + 1) maxResults.
Proof.
  induction fuel as [| fuel IH]; intros startIndex acc found Hrun.
  - discriminate Hrun.
  - rewrite scan_loop_step in Hrun.
    destruct (startIndex <? len contentLower);
      [| injection Hrun as <-; lia].
    cbv zeta in Hrun.
    destruct (indexOf contentLower queryLower startIndex =? -1);
      [injection Hrun as <-; lia |].
    destruct (host_preview h _ query) as [pv | e | b];
      cbn [bind] in Hrun; try discriminate Hrun.
    destruct (len _ >=? maxResults) eqn:Hcap.
    + injection Hrun as <-. rewrite len_snoc. lia.
    + apply IH in Hrun. rewrite len_snoc in Hrun, Hcap.
      rewrite Z.geb_leb in Hcap. apply Z.leb_gt in Hcap. lia.
Qed.

(** With previews that can be built, the loop returns within the turns
    the cap leaves. *)
Lemma scan_loop_total :
  (forall subject, exists highlighted,
      host_preview h subject query = Normal highlighted) ->
  forall fuel startIndex acc,
    1 <= Z.of_nat fuel ->
    maxResults - len acc <= Z.of_nat fuel ->
    exists found, scan fuel startIndex acc = Normal found.
Proof.
  intros Hpv. induction fuel as [| fuel IH]; intros startIndex acc H1 Hk.
  - simpl in H1. lia.
  - rewrite scan_loop_step.
    destruct (startIndex <? len contentLower); [| eexists; reflexivity].
    cbv zeta.
    destruct (indexOf contentLower queryLower startIndex =? -1);
      [eexists; reflexivity |].
    destruct (Hpv (window doc query contextLength
                     (indexOf contentLower queryLower startIndex))) as [pv ->].
    cbn [bind].
    destruct (len _ >=? maxResults) eqn:Hcap; [eexists; reflexivity |].
    rewrite Z.geb_leb in Hcap. apply Z.leb_gt in Hcap.
    rewrite len_snoc in Hcap.
    apply IH.
    + lia.
    + rewrite len_snoc. lia.
Qed.

(** The budget of turns is never what stops the loop. *)
Lemma scan_loop_fuel :
  (forall subject, host_preview h subject query <> Outside OutOfFuel) ->
  forall fuel startIndex acc,
    1 <= Z.of_nat fuel ->
    maxResults - len acc <= Z.of_nat fuel ->
    scan fuel startIndex acc <> Outside OutOfFuel.
Proof.
  intros Hpv. induction fuel as [| fuel IH]; intros startIndex acc H1 Hk.
  - simpl in H1. lia.
  - rewrite scan_loop_step.
    destruct (startIndex <? len contentLower); [| discriminate].
    cbv zeta.
    destruct (indexOf contentLower queryLower startIndex =? -1);
      [discriminate |].
    destruct (host_preview h _ query) as [pv | e | b] eqn:Hrun; cbn [bind].
    + destruct (len _ >=? maxResults) eqn:Hcap; [discriminate |].
      rewrite Z.geb_leb in Hcap. apply Z.leb_gt in Hcap.
      rewrite len_snoc in Hcap.
      apply IH.
      * lia.
      * rewrite len_snoc. lia.
    + discriminate.
    + intros Hb. injection Hb as ->. exact (Hpv _ Hrun).
Qed.

End ScanLoop.

Section SearchLoop.

Variable h : Host.
Variable query : jsstring.
Variables maxResults contextLength : Z.

Lemma search_loop_step (doc : PDFDocument) (docs : list PDFDocument)
    (acc : list SearchResult) :
  search_loop h (doc :: docs) query maxResults contextLength acc =
  found <- scan_document h doc query maxResults contextLength ;;
  let acc' :=
    if len found >? 0 then acc ++ [make_result doc found maxResults]
    else acc in
  if len acc' >=? maxResults then Normal acc'
  else search_loop h docs query maxResults contextLength acc'.
Proof. reflexivity. Qed.

(** A property of the result built for a document with matches is a
    property of every result returned. *)
Lemma search_loop_inv (R : SearchResult -> Prop) :
  forall docs,
    (forall doc found,
        In doc docs ->
        scan_document h doc query maxResults contextLength = Normal found ->
        0 < len found ->
        R (make_result doc found maxResults)) ->
    forall acc res,
      Forall R acc ->
      search_loop h docs query maxResults contextLength acc = Normal res ->
      Forall R res.
Proof.
  induction docs as [| doc docs IH]; intros HR acc res Hacc Hrun.
  - injection Hrun as <-. exact Hacc.
  - rewrite search_loop_step in Hrun.
    destruct (scan_document h doc query maxResults contextLength)
      as [found | e | b] eqn:Hscan; cbn [bind] in Hrun; try discriminate Hrun.
    cbv zeta in Hrun.
    assert (Hacc' : Forall R (if len found >? 0
                              then acc ++ [make_result doc found maxResults]
                              else acc)).
    { destruct (len found >? 0) eqn:Hpos; [| exact Hacc].
      apply Forall_app. split; [exact Hacc |].
      constructor; [| constructor].
      apply (HR doc found); [left; reflexivity | exact Hscan |].
      apply Z.gtb_lt in Hpos. exact Hpos. }
    destruct (len _ >=? maxResults).
    + injection Hrun as <-. exact Hacc'.
    + eapply IH; [| exact Hacc' | exact Hrun].
      intros d f Hd. apply HR. right. exact Hd.
Qed.

Lemma search_loop_length :
  forall docs acc res,
    search_loop h docs query maxResults contextLength acc = Normal res ->
    len res <= Z.max (len acc + 1) maxResults.
Proof.
  induction docs as [| doc docs IH]; intros acc res Hrun.
  - injection Hrun as <-. lia.
  - rewrite search_loop_step in Hrun.
    destruct (scan_document h doc query maxResults contextLength)
      as [found | e | b]; cbn [bind] in Hrun; try discriminate Hrun.
    cbv zeta in Hrun.
    destruct (len found >? 0).
    + destruct (len _ >=? maxResults) eqn:Hcap.
      * injection Hrun as <-. rewrite len_snoc. lia.
      * apply IH in Hrun. rewrite len_snoc in Hrun, Hcap.
        rewrite Z.geb_leb in Hcap. apply Z.leb_gt in Hcap. lia.
    + destruct (len _ >=? maxResults) eqn:Hcap.
      * injection Hrun as <-. lia.
      * apply IH in Hrun. rewrite Z.geb_leb in Hcap. apply Z.leb_gt in Hcap.
        lia.
Qed.

Lemma search_loop_total :
  (forall doc, exists found,
      scan_document h doc query maxResults contextLength = Normal found) ->
  forall docs acc,
    exists res,
      search_loop h docs query maxResults contextLength acc = Normal res.
Proof.
  intros Hscan. induction docs as [| doc docs IH]; intros acc.
  - eexists; reflexivity.
  - rewrite search_loop_step. destruct (Hscan doc) as [found ->].
    cbn [bind]. cbv zeta.
    destruct (len _ >=? maxResults); [eexists; reflexivity | apply IH].
Qed.

End SearchLoop.

(* ------------------------------------------------------------------ *)
(** ** Plain queries as patterns                                       *)
(* ------------------------------------------------------------------ *)

Section PlainPatterns.

Variable canon : code_unit -> code_unit.

Ltac split_syntax H :=
  unfold is_syntax_char, syntax_chars in H; simpl in H;
  repeat (apply orb_false_iff in H; destruct H as [? H]).

Lemma plain_cons (c : code_unit) (q : jsstring) :
  plain (c :: q) = true -> is_syntax_char c = false /\ plain q = true.
Proof.
  unfold plain. simpl. intros H. apply andb_true_iff in H.
  destruct H as [Hc Hq]. apply negb_true_iff in Hc. split; assumption.
Qed.

Lemma quantifier_of_plain (c : code_unit) :
  is_syntax_char c = false -> quantifier_of c = None.
Proof.
  intros H. split_syntax H. unfold quantifier_of.
  repeat match goal with E : (_ =? _)%N = false |- _ => rewrite E; clear E end.
  reflexivity.
Qed.

Lemma parse_quantifier_plain (atom : regex) (q : jsstring) (i n : nat) :
  plain q = true -> parse_quantifier atom q i n = (atom, q).
Proof.
  intros Hq. destruct q as [| c q]; [reflexivity |].
  apply plain_cons in Hq. destruct Hq as [Hc _].
  unfold parse_quantifier. rewrite (quantifier_of_plain c Hc). reflexivity.
Qed.

Lemma parse_term_plain (fuel : nat) (c : code_unit) (q : jsstring) (n : nat) :
  plain (c :: q) = true ->
  parse_term (S fuel) (c :: q) n = Parsed (Char c, q, n).
Proof.
  intros H. apply plain_cons in H. destruct H as [Hc Hq].
  pose proof Hc as Hc'. split_syntax Hc'.
  cbn [parse_term].
  repeat match goal with E : (_ =? _)%N = false |- _ => rewrite E; clear E end.
  cbn [orb]. rewrite (parse_quantifier_plain (Char c) q n 0 Hq). reflexivity.
Qed.

Lemma parse_alternative_cons (fuel : nat) (c : code_unit) (s : jsstring)
    (n : nat) :
  parse_alternative (S fuel) (c :: s) n =
  if ((c =? 124) || (c =? 41))%N then Parsed (Empty, c :: s, n)
  else
    match parse_term fuel (c :: s) n with
    | Parsed (t, rest, n1) =>
        match parse_alternative fuel rest n1 with
        | Parsed (a, rest', n') => Parsed (Seq t a, rest', n')
        | e => e
        end
    | e => e
    end.
Proof. reflexivity. Qed.

Lemma parse_alternative_plain (q : jsstring) :
  plain q = true ->
  forall fuel n, (List.length q < fuel)%nat ->
    parse_alternative fuel q n = Parsed (literal_tree q, [], n).
Proof.
  induction q as [| c q IH]; intros Hq fuel n Hfuel.
  - destruct fuel; [inversion Hfuel | reflexivity].
  - destruct fuel as [| fuel]; [inversion Hfuel |].
    simpl in Hfuel.
    pose proof (plain_cons c q Hq) as [Hc Hq'].
    pose proof Hc as Hc'. split_syntax Hc'.
    rewrite parse_alternative_cons.
    repeat match goal with
           | E : (c =? 124)%N = false |- _ => rewrite E; clear E
           | E : (c =? 41)%N = false |- _ => rewrite E; clear E
           end.
    cbn [orb].
    destruct fuel as [| fuel]; [lia |].
    rewrite (parse_term_plain fuel c q n Hq).
    rewrite (IH Hq' (S fuel) n) by lia. reflexivity.
Qed.

(** The constructor accepts a plain query and reads it as the sequence of
    its characters. *)
Lemma RegExp_new_plain (q : jsstring) :
  plain q = true -> RegExp_new q = Normal (literal_regexp q).
Proof.
  intros Hq. unfold RegExp_new, parse_fuel.
  replace (3 * List.length q + 3)%nat with (S (3 * List.length q + 2)) by lia.
  cbn [parse_disjunction].
  rewrite (parse_alternative_plain q Hq) by lia. reflexivity.
Qed.

(** The matcher of such a sequence compares unit by unit. *)
Lemma compile_literal (q : jsstring) :
  forall (x : state) (c : Continuation),
    compile canon (literal_tree q) x c =
    if ci_prefixb canon q (rest x)
    then c {| endIndex := endIndex x + List.length q;
              rest := skipn (List.length q) (rest x);
              captures := captures x |}
    else Failure.
Proof.
  induction q as [| a q IH]; intros x c.
  - destruct x as [e r caps]. simpl. rewrite Nat.add_0_r. reflexivity.
  - cbn [literal_tree fold_right compile]. fold (literal_tree q).
    destruct x as [e r caps]. cbn [rest endIndex captures].
    destruct r as [| b r]; [reflexivity |].
    cbn [ci_prefixb]. destruct (canon b =? canon a)%N;
      [| reflexivity].
    cbn [andb]. rewrite IH. unfold advance. cbn [rest endIndex captures].
    cbn [List.length skipn]. rewrite Nat.add_succ_r. reflexivity.
Qed.

Lemma match_at_literal (q : jsstring) (pos : nat) (input : jsstring) :
  match_at canon (literal_regexp q) pos input =
  if ci_prefixb canon q input
  then Matched {| endIndex := pos + List.length q;
                  rest := skipn (List.length q) input;
                  captures := [] |}
  else Failure.
Proof.
  unfold match_at, literal_regexp. cbn [source_tree nCaptures].
  rewrite compile_literal. reflexivity.
Qed.

(** A template without [$] is inserted as it is. *)
Lemma GetSubstitution_plain (matched subject : jsstring) (position : nat)
    (caps : list (option (nat * nat))) (template : jsstring) :
  forallb (fun c => negb (c =? 36)%N) template = true ->
  GetSubstitution matched subject position caps template = template.
Proof.
  induction template as [| c t IH]; intros H; [reflexivity |].
  simpl in H. apply andb_true_iff in H. destruct H as [Hc Ht].
  cbn [GetSubstitution]. rewrite Hc. rewrite (IH Ht). reflexivity.
Qed.

Lemma highlight_template_plain (q : jsstring) :
  plain q = true ->
  forallb (fun c => negb (c =? 36)%N) (highlight_template q) = true.
Proof.
  intros Hq. unfold highlight_template. rewrite !forallb_app.
  replace (forallb (fun c => negb (c =? 36)%N) (str "**")) with true
    by reflexivity.
  rewrite andb_true_r. cbn [andb].
  induction q as [| c q IH]; [reflexivity |].
  apply plain_cons in Hq. destruct Hq as [Hc Hq].
  split_syntax Hc. cbn [forallb].
  match goal with E : (c =? 36)%N = false |- _ => rewrite E end.
  cbn [negb andb]. exact (IH Hq).
Qed.

(** The global replace with a plain query is the replacement of its
    occurrences. *)
Lemma replace_scan_plain (q subject : jsstring) :
  plain q = true ->
  forall (input : jsstring) (skip pos : nat),
    replace_scan canon (literal_regexp q) (highlight_template q) subject skip pos
                 input
    = Normal (highlight_all canon q skip input).
Proof.
  intros Hq.
  induction input as [| c input IH]; intros skip pos.
  - destruct skip as [| k]; [| reflexivity].
    cbn [replace_scan highlight_all]. rewrite match_at_literal.
    destruct (ci_prefixb canon q []); [| reflexivity].
    rewrite GetSubstitution_plain by (apply highlight_template_plain; exact Hq).
    reflexivity.
  - destruct skip as [| k].
    + cbn [replace_scan highlight_all]. rewrite match_at_literal.
      destruct (ci_prefixb canon q (c :: input)).
      * cbn [endIndex captures].
        rewrite GetSubstitution_plain
          by (apply highlight_template_plain; exact Hq).
        replace (pos + List.length q - pos)%nat with (List.length q) by lia.
        destruct (List.length q) as [| n]; rewrite IH; reflexivity.
      * rewrite IH. reflexivity.
    + cbn [replace_scan highlight_all]. apply IH.
Qed.

Lemma make_preview_plain (subject q : jsstring) :
  plain q = true ->
  make_preview canon subject q = Normal (highlight_all canon q 0 subject).
Proof.
  intros Hq. unfold make_preview. rewrite (RegExp_new_plain q Hq).
  cbn [bind]. unfold replace. apply replace_scan_plain. exact Hq.
Qed.

End PlainPatterns.

(* ------------------------------------------------------------------ *)
(** ** The budgets of the model are never what stops a call            *)
(* ------------------------------------------------------------------ *)

Section Budgets.

Variable canon : code_unit -> code_unit.

Lemma parse_quantifier_rest (atom : regex) (s : jsstring) (i n : nat) :
  (List.length (snd (parse_quantifier atom s i n)) <= List.length s)%nat.
Proof.
  unfold parse_quantifier. destruct s as [| q s]; [simpl; lia |].
  destruct (quantifier_of q) as [[mn mx] |]; [| simpl; lia].
  destruct s as [| c s]; [simpl; lia |].
  destruct (c =? 63)%N; simpl; lia.
Qed.

Lemma close_group_within (atom : regex) (s : jsstring) (i n : nat) :
  parse_within (fun k => (k < List.length s)%nat) (close_group atom s i n).
Proof.
  unfold close_group. destruct s as [| c s]; [exact I |].
  destruct (c =? 41)%N; [| exact I].
  pose proof (parse_quantifier_rest atom s i (n - i)) as H.
  destruct (parse_quantifier atom s i (n - i)) as [r rest''].
  cbn [snd] in H. cbn [parse_within List.length]. lia.
Qed.

Lemma opening_of_length (s : jsstring) :
  match opening_of s with
  | NonCapturing body | Capturing body =>
      (List.length body <= List.length s)%nat
  | OtherGroup => True
  end.
Proof.
  unfold opening_of. destruct s as [| c1 t1]; [simpl; lia |].
  destruct (c1 =? 63)%N; [| lia].
  destruct t1 as [| c2 t2]; [exact I |].
  destruct (c2 =? 58)%N; [simpl; lia | exact I].
Qed.

Lemma parse_within_weaken (P Q : nat -> Prop) (r : parse_result parse_state) :
  (forall k, P k -> Q k) -> parse_within P r -> parse_within Q r.
Proof.
  intros HPQ. destruct r as [[[t rest] n] | | |]; cbn [parse_within]; auto.
Qed.

(** The budget given to the parser is enough for every pattern. *)
Lemma parse_budget :
  forall fuel,
    (forall s n, (3 * List.length s + 3 <= fuel)%nat ->
       parse_within (fun k => (k <= List.length s)%nat)
                    (parse_disjunction fuel s n)) /\
    (forall s n, (3 * List.length s + 2 <= fuel)%nat ->
       parse_within (fun k => (k <= List.length s)%nat)
                    (parse_alternative fuel s n)) /\
    (forall s n, (3 * List.length s + 1 <= fuel)%nat ->
       parse_within (fun k => (k < List.length s)%nat)
                    (parse_term fuel s n)).
Proof.
  induction fuel as [| fuel [IHd [IHa IHt]]].
  - repeat split; intros s n H; lia.
  - repeat split; intros s n Hfuel.
    + (* disjunction *)
      cbn [parse_disjunction].
      specialize (IHa s n ltac:(lia)).
      destruct (parse_alternative fuel s n) as [[[a rest] n1] | | |];
        cbn [parse_within] in *; try exact I; try contradiction.
      destruct rest as [| c rest]; [cbn [parse_within]; exact IHa |].
      destruct (c =? 124)%N; [| cbn [parse_within]; exact IHa].
      cbn [List.length] in IHa.
      specialize (IHd rest n1 ltac:(lia)).
      destruct (parse_disjunction fuel rest n1) as [[[b rest'] n'] | | |];
        cbn [parse_within] in *; try exact I; try contradiction.
      lia.
    + (* alternative *)
      cbn [parse_alternative].
      destruct s as [| c s]; [cbn [parse_within]; lia |].
      destruct ((c =? 124) || (c =? 41))%N; [cbn [parse_within]; lia |].
      specialize (IHt (c :: s) n ltac:(lia)).
      destruct (parse_term fuel (c :: s) n) as [[[t rest] n1] | | |];
        cbn [parse_within] in *; try exact I; try contradiction.
      specialize (IHa rest n1 ltac:(cbn [List.length] in *; lia)).
      destruct (parse_alternative fuel rest n1) as [[[a rest'] n'] | | |];
        cbn [parse_within] in *; try exact I; try contradiction.
      lia.
    + (* term *)
      cbn [parse_term].
      destruct s as [| c s]; [exact I |].
      cbn [List.length] in Hfuel.
      destruct (c =? 94)%N; [cbn [parse_within List.length]; lia |].
      destruct (c =? 36)%N; [cbn [parse_within List.length]; lia |].
      destruct ((c =? 42) || (c =? 43) || (c =? 63) || (c =? 41))%N;
        [exact I |].
      destruct ((c =? 91) || (c =? 93) || (c =? 123) || (c =? 125))%N;
        [exact I |].
      destruct (c =? 40)%N.
      * pose proof (opening_of_length s) as Hopen.
        destruct (opening_of s) as [body | | body]; cbv beta iota in Hopen;
          [| exact I |].
        -- specialize (IHd body n ltac:(lia)).
           destruct (parse_disjunction fuel body n) as [[[r rest] n1] | | |];
             cbn [parse_within] in *; try exact I; try contradiction.
           eapply parse_within_weaken; [| apply close_group_within].
           intros k Hk. cbn [List.length]. cbv beta in *. lia.
        -- specialize (IHd body (S n) ltac:(lia)).
           destruct (parse_disjunction fuel body (S n))
             as [[[r rest] n1] | | |];
             cbn [parse_within] in *; try exact I; try contradiction.
           eapply parse_within_weaken; [| apply close_group_within].
           intros k Hk. cbn [List.length]. cbv beta in *. lia.
      * destruct (c =? 92)%N.
        -- destruct s as [| e s]; [exact I |].
           destruct (is_syntax_char e); [| exact I].
           pose proof (parse_quantifier_rest (Char e) s n 0) as H.
           destruct (parse_quantifier (Char e) s n 0) as [r rest].
           cbn [snd] in H. cbn [parse_within List.length]. lia.
        -- pose proof (parse_quantifier_rest
                         (if (c =? 46)%N then Dot else Char c) s n 0) as H.
           cbv zeta.
           destruct (parse_quantifier _ s n 0) as [r rest].
           cbn [snd] in H. cbn [parse_within List.length]. lia.
Qed.

(** The constructor returns or throws, or meets a construct that is not
    modelled. *)
Lemma RegExp_new_budget (pattern : jsstring) :
  RegExp_new pattern <> Outside OutOfFuel.
Proof.
  unfold RegExp_new.
  pose proof (proj1 (parse_budget (parse_fuel pattern)) pattern 0%nat) as H.
  specialize (H ltac:(unfold parse_fuel; lia)).
  destruct (parse_disjunction (parse_fuel pattern) pattern 0)
    as [[[r rest] n] | | |]; cbn [parse_within] in H.
  - destruct rest; discriminate.
  - discriminate.
  - discriminate.
  - contradiction.
Qed.

Lemma continues_here (L : nat) (x : state) (c : Continuation) :
  state_of L x -> continues L x c -> c x <> Exhausted.
Proof. intros Hx Hc. apply Hc; [exact Hx | lia]. Qed.

Lemma continues_later (L : nat) (x y : state) (c : Continuation) :
  (endIndex x <= endIndex y)%nat -> continues L x c -> continues L y c.
Proof.
  intros Hxy Hc z Hz Hyz. apply Hc; [exact Hz | lia].
Qed.

(** The iterations of a quantified atom stay within their budget. *)
Lemma RepeatMatcher_budget (L : nat) (m : Matcher) :
  (forall x c, state_of L x -> continues L x c -> m x c <> Exhausted) ->
  forall fuel min max greedy x c parenIndex parenCount,
    state_of L x -> continues L x c ->
    (min + List.length (rest x) < fuel)%nat ->
    RepeatMatcher fuel m min max greedy x c parenIndex parenCount
      <> Exhausted.
Proof.
  intros Hm. induction fuel as [| fuel IH];
    intros min max greedy x c parenIndex parenCount Hx Hc Hfuel; [lia |].
  cbn [RepeatMatcher].
  pose proof (continues_here L x c Hx Hc) as Hcx.
  set (d := fun y : state =>
              if Nat.eqb min 0 && Nat.eqb (endIndex y) (endIndex x)
              then Failure
              else RepeatMatcher fuel m (Nat.pred min)
                     (option_map Nat.pred max) greedy y c parenIndex
                     parenCount).
  assert (Hd : continues L (clear_captures x parenIndex parenCount) d).
  { intros y Hy Hle. cbn [clear_captures endIndex] in Hle. unfold d.
    destruct (Nat.eqb min 0 && Nat.eqb (endIndex y) (endIndex x)) eqn:E;
      [discriminate |].
    apply IH; [exact Hy | exact (continues_later L x y c Hle Hc) |].
    unfold state_of in Hx, Hy.
    destruct min as [| k].
    - cbn [Nat.eqb andb] in E. apply Nat.eqb_neq in E. simpl. lia.
    - simpl. lia. }
  assert (Hmd : m (clear_captures x parenIndex parenCount) d <> Exhausted).
  { apply Hm; [exact Hx | exact Hd]. }
  assert (Hbody :
    (if negb (Nat.eqb min 0)
     then m (clear_captures x parenIndex parenCount) d
     else if greedy
          then match m (clear_captures x parenIndex parenCount) d with
               | Failure => c x
               | z => z
               end
          else match c x with
               | Failure => m (clear_captures x parenIndex parenCount) d
               | z => z
               end) <> Exhausted).
  { destruct (negb (Nat.eqb min 0)); [exact Hmd |].
    destruct greedy.
    - destruct (m (clear_captures x parenIndex parenCount) d);
        [exact Hcx | discriminate | exact Hmd].
    - destruct (c x); [exact Hmd | discriminate | exact Hcx]. }
  destruct max as [[| mx] |]; [exact Hcx | exact Hbody | exact Hbody].
Qed.

(** A matcher never runs out of budget. *)
Lemma compile_budget (r : regex) :
  forall (L : nat) (x : state) (c : Continuation),
    state_of L x -> continues L x c -> compile canon r x c <> Exhausted.
Proof.
  induction r as [| ch | | | | idx r IH | r1 IH1 r2 IH2 | r1 IH1 r2 IH2
                  | r IH min max greedy parenIndex parenCount];
    intros L x c Hx Hc; cbn [compile].
  - exact (continues_here L x c Hx Hc).
  - destruct (rest x) as [| a t] eqn:Hrest; [discriminate |].
    destruct (canon a =? canon ch)%N; [| discriminate].
    apply Hc; unfold state_of, advance in *; cbn [endIndex rest] in *.
    + rewrite Hrest in Hx. cbn [List.length] in Hx. lia.
    + lia.
  - destruct (rest x) as [| a t] eqn:Hrest; [discriminate |].
    destruct (is_line_terminator a); [discriminate |].
    apply Hc; unfold state_of, advance in *; cbn [endIndex rest] in *.
    + rewrite Hrest in Hx. cbn [List.length] in Hx. lia.
    + lia.
  - destruct (Nat.eqb (endIndex x) 0);
      [exact (continues_here L x c Hx Hc) | discriminate].
  - destruct (rest x); [exact (continues_here L x c Hx Hc) | discriminate].
  - apply (IH L); [exact Hx |].
    intros y Hy Hle. apply Hc; [exact Hy | exact Hle].
  - apply (IH1 L); [exact Hx |].
    intros y Hy Hle. apply (IH2 L); [exact Hy |].
    exact (continues_later L x y c Hle Hc).
  - destruct (compile canon r1 x c) eqn:E1.
    + apply (IH2 L); assumption.
    + discriminate.
    + exfalso. exact (IH1 L x c Hx Hc E1).
  - apply (RepeatMatcher_budget L (compile canon r)).
    + intros x' c' Hx' Hc'. apply (IH L); assumption.
    + exact Hx.
    + exact Hc.
    + lia.
Qed.

Lemma match_at_budget (rx : RegExp) (pos : nat) (input : jsstring) :
  match_at canon rx pos input <> Exhausted.
Proof.
  unfold match_at.
  apply (compile_budget _ (pos + List.length input)).
  - reflexivity.
  - intros y _ _. discriminate.
Qed.

(** A global replace returns, whatever the expression. *)
Lemma replace_scan_returns (rx : RegExp) (template subject : jsstring) :
  forall (input : jsstring) (skip pos : nat),
    exists out,
      replace_scan canon rx template subject skip pos input = Normal out.
Proof.
  induction input as [| c input IH]; intros skip pos.
  - destruct skip as [| k]; cbn [replace_scan]; [| eexists; reflexivity].
    pose proof (match_at_budget rx pos []) as Hm.
    destruct (match_at canon rx pos []); [| | contradiction]; eexists; reflexivity.
  - destruct skip as [| k]; cbn [replace_scan]; [| apply IH].
    pose proof (match_at_budget rx pos (c :: input)) as Hm.
    destruct (match_at canon rx pos (c :: input)) as [| y |]; [| | contradiction].
    + destruct (IH 0%nat (S pos)) as [out ->]. eexists; reflexivity.
    + destruct (endIndex y - pos)%nat as [| k].
      * destruct (IH 0%nat (S pos)) as [out ->]. eexists; reflexivity.
      * destruct (IH k (S pos)) as [out ->]. eexists; reflexivity.
Qed.

Lemma budget_transfer {A B : Type} (b : boundary) :
  @Outside A b <> Outside OutOfFuel -> @Outside B b <> Outside OutOfFuel.
Proof.
  intros H E. apply H. injection E as ->. reflexivity.
Qed.

(** The preview step returns or throws a SyntaxError, or meets a pattern
    that is not modelled; no budget stops it. *)
Lemma make_preview_budget (subject query : jsstring) :
  make_preview canon subject query <> Outside OutOfFuel.
Proof.
  unfold make_preview.
  pose proof (RegExp_new_budget query) as Hnew.
  destruct (RegExp_new query) as [rx | e | b]; cbn [bind].
  - destruct (replace_scan_returns rx (highlight_template query) subject
                subject 0%nat 0%nat) as [out Hout].
    unfold replace. rewrite Hout. discriminate.
  - discriminate.
  - exact (budget_transfer b Hnew).
Qed.

(** No budget of the model stops a search. *)
Lemma search_budget (lower : jsstring -> jsstring) (query : jsstring)
    (maxResults contextLength : option Z) (st : store) :
  search_pdfs (engine_host lower canon) query maxResults contextLength st
    <> Outside OutOfFuel.
Proof.
  unfold search_pdfs.
  assert (Hscan : forall doc,
            scan_document (engine_host lower canon) doc query (or_default maxResults 10)
                          (or_default contextLength 200)
              <> Outside OutOfFuel).
  { intros doc. unfold scan_document. apply scan_loop_fuel.
    - intros subject. exact (make_preview_budget subject query).
    - unfold scan_fuel. lia.
    - unfold scan_fuel. change (len (@nil SearchMatch)) with 0. lia. }
  assert (Hloop : forall docs acc,
            search_loop (engine_host lower canon) docs query (or_default maxResults 10)
                        (or_default contextLength 200) acc
              <> Outside OutOfFuel).
  { induction docs as [| doc docs IH]; intros acc; [discriminate |].
    rewrite search_loop_step. specialize (Hscan doc).
    destruct (scan_document (engine_host lower canon) doc query _ _) as [found | e | b];
      cbn [bind].
    - cbv zeta. destruct (len _ >=? _); [discriminate | apply IH].
    - discriminate.
    - exact (budget_transfer b Hscan). }
  specialize (Hloop (Object_values st) []).
  destruct (search_loop (engine_host lower canon) (Object_values st) query _ _ [])
    as [found | e | b]; cbn [bind].
  - discriminate.
  - discriminate.
  - exact (budget_transfer b Hloop).
Qed.

End Budgets.

(* ------------------------------------------------------------------ *)
(** ** The positions a scan reports                                    *)
(* ------------------------------------------------------------------ *)

Section Occurrences.

Variable f : code_unit -> code_unit.
Variable q : jsstring.
Hypothesis q_not_empty : q <> [].

Lemma prefixb_map (p s : jsstring) :
  prefixb (map f p) (map f s) = folded_prefixb f p s.
Proof.
  revert s. induction p as [| a p IH]; intros s; [reflexivity |].
  destruct s as [| b s]; [reflexivity |].
  cbn [map prefixb folded_prefixb]. rewrite IH. reflexivity.
Qed.

Lemma find_from_ge (p : jsstring) :
  forall (s : jsstring) (k i : nat), find_from p s k = Some i -> (k <= i)%nat.
Proof.
  induction s as [| c s IH]; intros k i H; cbn [find_from] in H.
  - destruct (prefixb p []); [injection H as <-; lia | discriminate H].
  - destruct (prefixb p (c :: s)); [injection H as <-; lia |].
    apply IH in H. lia.
Qed.

Lemma occurrences_skip :
  forall (k : nat) (t : jsstring) (pos : Z),
    occurrences f q k pos t
    = occurrences f q 0 (pos + Z.of_nat k) (skipn k t).
Proof.
  induction k as [| k IH]; intros t pos.
  - rewrite Z.add_0_r. reflexivity.
  - destruct t as [| c t]; [reflexivity |].
    cbn [occurrences skipn]. rewrite IH. f_equal. lia.
Qed.

(** The occurrences from an offset on: the first one is where [find_from]
    finds the folded query, the others follow it. *)
Lemma occurrences_find :
  forall (t : jsstring) (n : nat),
    occurrences f q 0 (Z.of_nat n) t =
    match find_from (map f q) (map f t) n with
    | None => []
    | Some i =>
        Z.of_nat i ::
          occurrences f q 0 (Z.of_nat i + len q)
                      (skipn (i - n + List.length q) t)
    end.
Proof.
  destruct q as [| a q'] eqn:Hq; [contradiction |]. rewrite <- Hq.
  assert (Hlen : List.length q = S (List.length q'))
    by (rewrite Hq; reflexivity).
  induction t as [| c t IH]; intros n.
  - cbn [map find_from]. rewrite Hq. reflexivity.
  - cbn [map find_from]. change (f c :: map f t) with (map f (c :: t)).
    rewrite prefixb_map. cbn [occurrences].
    destruct (folded_prefixb f q (c :: t)).
    + f_equal. rewrite occurrences_skip.
      replace (n - n + List.length q)%nat with (S (List.length q - 1)) by lia.
      cbn [skipn]. f_equal. unfold len. lia.
    + replace (Z.of_nat n + 1) with (Z.of_nat (S n)) by lia.
      rewrite IH.
      destruct (find_from (map f q) (map f t) (S n)) as [i |] eqn:Hfind;
        [| reflexivity].
      apply find_from_ge in Hfind.
      replace (i - n + List.length q)%nat
        with (S (i - S n + List.length q)) by lia.
      reflexivity.
Qed.

Lemma occurrences_nil (pos : Z) (t : jsstring) :
  t = [] -> occurrences f q 0 pos t = [].
Proof. intros ->. reflexivity. Qed.

(** Every offset listed is the offset of an occurrence. *)
Lemma occurrences_sound :
  forall (t : jsstring) (skip : nat) (pos p : Z),
    In p (occurrences f q skip pos t) ->
    exists n : nat,
      p = pos + Z.of_nat n /\ folded_prefixb f q (skipn n t) = true.
Proof.
  induction t as [| c t IH]; intros skip pos p Hin; [destruct Hin |].
  cbn [occurrences] in Hin.
  destruct skip as [| k].
  - destruct (folded_prefixb f q (c :: t)) eqn:Hpre.
    + destruct Hin as [<- | Hin].
      * exists 0%nat. split; [lia | exact Hpre].
      * apply IH in Hin. destruct Hin as [n [-> Hn]].
        exists (S n). split; [lia | exact Hn].
    + apply IH in Hin. destruct Hin as [n [-> Hn]].
      exists (S n). split; [lia | exact Hn].
  - apply IH in Hin. destruct Hin as [n [-> Hn]].
    exists (S n). split; [lia | exact Hn].
Qed.

Lemma indexOf_find (s p : jsstring) (start : Z) :
  0 <= start <= len s ->
  indexOf s p start =
  match find_from p (skipn (Z.to_nat start) s) (Z.to_nat start) with
  | Some k => Z.of_nat k
  | None => -1
  end.
Proof.
  intros H. unfold indexOf.
  replace (Z.min (Z.max start 0) (len s)) with start by lia. reflexivity.
Qed.

Variable h : Host.
Variable doc : PDFDocument.
Variables maxResults contextLength : Z.

(** The positions recorded by the loop from [startIndex] on, when the
    lower-cased copies are unit-wise foldings of the query and of the
    content. *)
Lemma scan_loop_positions :
  forall fuel startIndex acc found,
    0 <= startIndex ->
    scan_loop h fuel doc q (map f q) (map f (content doc)) maxResults
              contextLength startIndex acc = Normal found ->
    map position found =
    map position acc ++
    firstn (Z.to_nat (Z.max 1 (maxResults - len acc)))
           (occurrences f q 0 startIndex
                        (skipn (Z.to_nat startIndex) (content doc))).
Proof.
  assert (Hcl : len (map f (content doc)) = len (content doc))
    by (unfold len; rewrite length_map; reflexivity).
  induction fuel as [| fuel IH]; intros startIndex acc found Hstart Hrun.
  - discriminate Hrun.
  - rewrite scan_loop_step in Hrun. rewrite Hcl in Hrun.
    destruct (startIndex <? len (content doc)) eqn:Hlt.
    + apply Z.ltb_lt in Hlt. cbv zeta in Hrun.
      rewrite indexOf_find in Hrun by lia.
      rewrite skipn_map in Hrun.
      pose proof (occurrences_find (skipn (Z.to_nat startIndex) (content doc))
                    (Z.to_nat startIndex)) as Hocc.
      rewrite Z2Nat.id in Hocc by lia.
      destruct (find_from (map f q)
                  (map f (skipn (Z.to_nat startIndex) (content doc)))
                  (Z.to_nat startIndex)) as [i |] eqn:Hfind.
      * pose proof (find_from_ge _ _ _ _ Hfind) as Hge.
        replace (Z.of_nat i =? -1) with false in Hrun
          by (symmetry; apply Z.eqb_neq; lia).
        destruct (host_preview h _ q) as [pv | e | b];
          cbn [bind] in Hrun; try discriminate Hrun.
        rewrite Hocc. rewrite skipn_skipn in *.
        replace (i - Z.to_nat startIndex + List.length q
                 + Z.to_nat startIndex)%nat
          with (Z.to_nat (Z.of_nat i + len q)) by (unfold len; lia).
        destruct (len _ >=? maxResults) eqn:Hcap.
        -- injection Hrun as <-. rewrite map_app.
           rewrite Z.geb_leb in Hcap. apply Z.leb_le in Hcap.
           rewrite len_snoc in Hcap.
           replace (Z.to_nat (Z.max 1 (maxResults - len acc))) with 1%nat
             by lia.
           reflexivity.
        -- apply IH in Hrun; [| unfold len; lia].
           rewrite Z.geb_leb in Hcap. apply Z.leb_gt in Hcap.
           rewrite len_snoc in Hcap, Hrun.
           rewrite Hrun. rewrite map_app. rewrite <- app_assoc.
           replace (Z.to_nat (Z.max 1 (maxResults - len acc)))
             with (S (Z.to_nat (Z.max 1 (maxResults - (len acc + 1)))))
             by lia.
           reflexivity.
      * injection Hrun as <-. rewrite Hocc. rewrite firstn_nil.
        rewrite app_nil_r. reflexivity.
    + injection Hrun as <-. apply Z.ltb_ge in Hlt.
      rewrite skipn_all2 by (unfold len in Hlt; lia).
      cbn [occurrences]. rewrite firstn_nil. rewrite app_nil_r. reflexivity.
Qed.

(** The positions found in one document are the first occurrences of the
    query, as many as the cap allows (one when the cap is below one). *)
Lemma scan_document_positions (found : list SearchMatch) :
  host_toLowerCase h q = map f q ->
  host_toLowerCase h (content doc) = map f (content doc) ->
  scan_document h doc q maxResults contextLength = Normal found ->
  map position found =
  firstn (Z.to_nat (Z.max 1 maxResults)) (occurrences f q 0 0 (content doc)).
Proof.
  intros Hq Hc Hrun. unfold scan_document in Hrun. rewrite Hq, Hc in Hrun.
  apply scan_loop_positions in Hrun; [| lia].
  rewrite Hrun. change (len (@nil SearchMatch)) with 0.
  rewrite Z.sub_0_r. reflexivity.
Qed.

End Occurrences.

Section LowerCase.

Lemma lower_units_single (c : code_unit) :
  c <> 304%N -> lower_units c = [lower_unit c].
Proof.
  intros Hc. unfold lower_unit, lower_units.
  destruct ((65 <=? c) && (c <=? 90))%N; [reflexivity |].
  destruct ((192 <=? c) && (c <=? 222) && negb (c =? 215))%N; [reflexivity |].
  destruct (c =? 304)%N eqn:E; [apply N.eqb_eq in E; contradiction |].
  reflexivity.
Qed.

Lemma latin1_cons (c : code_unit) (s : jsstring) :
  latin1 (c :: s) = true -> (c < 256)%N /\ latin1 s = true.
Proof.
  unfold latin1. cbn [forallb]. intros H. apply andb_true_iff in H.
  destruct H as [Hc Hs]. apply N.ltb_lt in Hc. split; assumption.
Qed.

(** The lower case of a text of units up to U+00FF is taken unit by
    unit. *)
Lemma toLowerCase_unitwise (s : jsstring) :
  latin1 s = true -> toLowerCase s = map lower_unit s.
Proof.
  induction s as [| c s IH]; intros H; [reflexivity |].
  apply latin1_cons in H. destruct H as [Hc Hs].
  unfold toLowerCase in *. cbn [flat_map map].
  rewrite lower_units_single by (intros ->; discriminate Hc).
  rewrite (IH Hs). reflexivity.
Qed.

(** On a query and a content of units up to U+00FF, the positions reported
    for a document are offsets in its content: those of the first
    non-overlapping case-insensitive occurrences of the query. *)
Lemma positions_in_latin1 (canon : code_unit -> code_unit)
    (doc : PDFDocument) (q : jsstring)
    (maxResults contextLength : Z) (found : list SearchMatch) :
  q <> [] ->
  latin1 q = true ->
  latin1 (content doc) = true ->
  scan_document (engine_host toLowerCase canon) doc q maxResults
                contextLength = Normal found ->
  map position found =
  firstn (Z.to_nat (Z.max 1 maxResults))
         (occurrences lower_unit q 0 0 (content doc)).
Proof.
  intros Hq Hql Hcl Hrun.
  apply (scan_document_positions lower_unit q Hq
           (engine_host toLowerCase canon) doc maxResults contextLength
           found); [| | exact Hrun].
  - cbn [host_toLowerCase engine_host]. apply toLowerCase_unitwise.
    exact Hql.
  - cbn [host_toLowerCase engine_host]. apply toLowerCase_unitwise.
    exact Hcl.
Qed.

End LowerCase.

(* ------------------------------------------------------------------ *)
(** ** Properties of search-pdfs                                       *)
(* ------------------------------------------------------------------ *)

Section SearchProperties.

Lemma Forall_array_slice {A : Type} (P : A -> Prop) (a : list A) (s e : Z) :
  Forall P a -> Forall P (array_slice a s e).
Proof.
  intros H. apply Forall_forall. intros x Hx.
  apply array_slice_incl in Hx. revert x Hx. apply Forall_forall. exact H.
Qed.

(** Every result returned belongs to a stored document, and a property of
    the matches recorded for that document holds of the matches of the
    result. *)
Lemma search_results_inv (h : Host) (P : PDFDocument -> SearchMatch -> Prop)
    (query : jsstring) (maxResults contextLength : option Z) (st : store)
    (p : SearchPayload) :
  (forall doc index highlighted,
      host_preview h (window doc query (or_default contextLength 200) index)
                   query
        = Normal highlighted ->
      P doc (recorded_match doc query (or_default contextLength 200) index
                            highlighted)) ->
  search_pdfs h query maxResults contextLength st = Normal p ->
  Forall (fun r => exists doc,
              In doc (Object_values st) /\ docId r = id doc /\
              Forall (P doc) (matches r))
         (results p).
Proof.
  intros HP Hrun. unfold search_pdfs in Hrun.
  destruct (search_loop _ _ _ _ _ _) as [res | e | b] eqn:Hloop;
    cbn [bind] in Hrun; try discriminate Hrun.
  injection Hrun as <-. cbn [results].
  eapply search_loop_inv; [| constructor | exact Hloop].
  intros doc found Hdoc Hscan _. exists doc.
  split; [exact Hdoc |]. split; [reflexivity |].
  cbn [make_result matches]. apply Forall_array_slice.
  unfold scan_document in Hscan.
  eapply scan_loop_inv; [| constructor | exact Hscan].
  intros index highlighted Hpv. apply HP. exact Hpv.
Qed.

(** A document returns at most one match when the cap is below one, and
    at most [maxResults] otherwise. *)
Lemma scan_document_length (h : Host) (doc : PDFDocument) (query : jsstring)
    (maxResults contextLength : Z) (found : list SearchMatch) :
  scan_document h doc query maxResults contextLength = Normal found ->
  len found <= Z.max 1 maxResults.
Proof.
  unfold scan_document. intros H. apply scan_loop_length in H.
  exact H.
Qed.

Lemma scan_document_total (lower : jsstring -> jsstring)
    (canon : code_unit -> code_unit) (doc : PDFDocument) (query : jsstring)
    (maxResults contextLength : Z) :
  plain query = true ->
  exists found,
    scan_document (engine_host lower canon) doc query maxResults
                  contextLength
      = Normal found.
Proof.
  intros Hq. unfold scan_document. apply scan_loop_total.
  - intros subject. eexists.
    exact (make_preview_plain canon subject query Hq).
  - unfold scan_fuel. lia.
  - unfold scan_fuel. change (len (@nil SearchMatch)) with 0. lia.
Qed.

(** The matches kept of the matches found: all of them under a cap of one
    or more, none otherwise. *)
Lemma kept_positions (found : list SearchMatch) (k : Z) (occ : list Z) :
  len found <= Z.max 1 k ->
  map position found = firstn (Z.to_nat (Z.max 1 k)) occ ->
  map position (array_slice found 0 (Z.min (len found) k))
  = firstn (Z.to_nat k) occ.
Proof.
  intros Hlen Hpos. pose proof (len_nonneg found) as H0.
  destruct (Z_le_gt_dec 1 k) as [Hk | Hk].
  - replace (Z.min (len found) k) with (len found) by lia.
    rewrite array_slice_all. rewrite Hpos. f_equal. lia.
  - replace (Z.to_nat k) with 0%nat by lia. cbn [firstn].
    unfold array_slice.
    destruct (0 <? 0) eqn:E0; [apply Z.ltb_lt in E0; lia |].
    destruct (Z.min (len found) k <? 0) eqn:E1.
    + apply Z.ltb_lt in E1.
      replace (Z.to_nat (Z.max (len found + Z.min (len found) k) 0
                         - Z.min 0 (len found))) with 0%nat by lia.
      reflexivity.
    + apply Z.ltb_ge in E1.
      replace (Z.to_nat (Z.min (Z.min (len found) k) (len found)
                         - Z.min 0 (len found))) with 0%nat by lia.
      reflexivity.
Qed.

(** On a query and contents of units up to U+00FF, the positions reported
    for a document are offsets in its content: those of the first
    maxResults non-overlapping case-insensitive occurrences of the query,
    taken left to right. *)
Lemma reported_positions_in_latin1 (canon : code_unit -> code_unit)
    (query : jsstring) (maxResults contextLength : option Z) (st : store)
    (p : SearchPayload) :
  query <> [] ->
  latin1 query = true ->
  Forall (fun doc => latin1 (content doc) = true) (Object_values st) ->
  search_pdfs (engine_host toLowerCase canon) query maxResults contextLength
              st = Normal p ->
  Forall (fun r => exists doc,
              In doc (Object_values st) /\ docId r = id doc /\
              map position (matches r) =
              firstn (Z.to_nat (or_default maxResults 10))
                     (occurrences lower_unit query 0 0 (content doc)))
         (results p).
Proof.
  intros Hq Hql Hst Hrun. unfold search_pdfs in Hrun.
  destruct (search_loop _ _ _ _ _ _) as [res | e | b] eqn:Hloop;
    cbn [bind] in Hrun; try discriminate Hrun.
  injection Hrun as <-. cbn [results].
  eapply search_loop_inv; [| constructor | exact Hloop].
  intros doc found Hdoc Hscan _. exists doc.
  split; [exact Hdoc |]. split; [reflexivity |].
  cbn [make_result matches]. apply kept_positions.
  - apply scan_document_length in Hscan. exact Hscan.
  - apply (positions_in_latin1 canon doc query (or_default maxResults 10)
             (or_default contextLength 200) found Hq Hql); [| exact Hscan].
    clear Hscan. revert doc Hdoc. apply Forall_forall. exact Hst.
Qed.

(** Within the content and for a context length that is not negative, the
    window is the plain range of units around the match. *)
Lemma window_is_range (doc : PDFDocument) (query : jsstring)
    (contextLength index : Z) :
  0 <= contextLength ->
  0 <= index ->
  index + len query <= len (content doc) ->
  window doc query contextLength index =
  units (content doc) (Z.max 0 (index - contextLength))
        (Z.min (len (content doc)) (index + len query + contextLength)).
Proof.
  intros Hc Hi Hfit. unfold window. pose proof (len_nonneg query) as Hq.
  apply substring_ordered; lia.
Qed.

(** C3, as amended: for every search with maxResults = k, an integer
    k >= 1, the result list holds at most k documents, the matches list of
    each holds at most k entries, and totalMatches is the length of that
    list.  This holds on every host. *)
Theorem search_respects_positive_cap (h : Host) (query : jsstring)
    (maxResults contextLength : option Z) (st : store) (p : SearchPayload) :
  1 <= or_default maxResults 10 ->
  search_pdfs h query maxResults contextLength st = Normal p ->
  cap_respected (or_default maxResults 10) p.
Proof.
  intros Hk Hrun. unfold search_pdfs in Hrun.
  destruct (search_loop _ _ _ _ _ _) as [res | e | b] eqn:Hloop;
    cbn [bind] in Hrun; try discriminate Hrun.
  injection Hrun as <-. unfold cap_respected. cbn [results]. split.
  - apply search_loop_length in Hloop.
    change (len (@nil SearchResult)) with 0 in Hloop. lia.
  - eapply search_loop_inv; [| constructor | exact Hloop].
    intros doc found _ Hscan _.
    apply scan_document_length in Hscan.
    cbn [make_result matches totalMatches].
    replace (Z.min (len found) (or_default maxResults 10)) with (len found)
      by lia.
    rewrite array_slice_all. split; [lia | reflexivity].
Qed.

Lemma search_respects_positive_cap_witness :
  exists p,
    search_pdfs modelled_host (str "quick") (Some 1) (Some 5) fox_store
      = Normal p /\
    map totalMatches (results p) = [1] /\
    cap_respected 1 p.
Proof.
  eexists. split; [reflexivity |]. split; [reflexivity |].
  apply (search_respects_positive_cap modelled_host (str "quick") (Some 1)
           (Some 5) fox_store).
  - simpl. lia.
  - reflexivity.
Defined.

(** C3, as stated, fails at maxResults = 0: a document that holds the
    query is still returned, with totalMatches = 1 and an empty matches
    list. *)
Lemma cap_broken_at_zero :
  exists p,
    search_pdfs modelled_host (str "a") (Some 0) None
                (single_store (str "aaa")) = Normal p /\
    len (results p) = 1 /\
    map totalMatches (results p) = [1] /\
    map matches (results p) = [[]] /\
    ~ cap_respected 0 p.
Proof.
  eexists. split; [reflexivity |].
  split; [reflexivity |]. split; [reflexivity |]. split; [reflexivity |].
  unfold cap_respected. intros [Hlen _]. vm_compute in Hlen.
  apply Hlen. reflexivity.
Qed.

(** C4: the context of every reported match is the trimmed substring of the
    content between max(0, position - contextLength) and
    min(length, position + query.length + contextLength).  This holds on
    every host. *)
Theorem context_is_trimmed_window (h : Host) (query : jsstring)
    (maxResults contextLength : option Z) (st : store) (p : SearchPayload) :
  search_pdfs h query maxResults contextLength st = Normal p ->
  Forall (fun r => exists doc,
              In doc (Object_values st) /\ docId r = id doc /\
              Forall (fun m =>
                        context m =
                        trim (substring (content doc)
                                (Z.max 0 (position m - or_default contextLength 200))
                                (Some (Z.min (len (content doc))
                                         (position m + len query
                                          + or_default contextLength 200)))))
                     (matches r))
         (results p).
Proof.
  intros Hrun.
  apply (search_results_inv h
           (fun doc m => context m =
              trim (window doc query (or_default contextLength 200) (position m)))
           query maxResults contextLength st p); [| exact Hrun].
  intros doc index highlighted _. reflexivity.
Qed.

Lemma context_is_trimmed_window_witness :
  exists p,
    search_pdfs modelled_host (str "quick") (Some 10) (Some 5) fox_store
      = Normal p /\
    Forall (fun r => exists doc,
                In doc (Object_values fox_store) /\ docId r = id doc /\
                Forall (fun m =>
                          context m =
                          trim (substring (content doc)
                                  (Z.max 0 (position m - 5))
                                  (Some (Z.min (len (content doc))
                                           (position m + len (str "quick") + 5)))))
                       (matches r))
           (results p).
Proof.
  eexists. split; [reflexivity |].
  apply (context_is_trimmed_window modelled_host (str "quick") (Some 10)
           (Some 5) fox_store).
  reflexivity.
Defined.

(** C5, as amended: for a query without syntax characters of the pattern
    grammar, the preview of every reported match is the context window
    before trimming, with every case-insensitive occurrence of the query
    replaced by the query as typed between two [**] markers.  An
    occurrence is case-insensitive as the [i] flag has it: unit by unit
    through the canonicalization of the engine.  This holds whatever the
    case conversion and the canonicalization of the engine are. *)
Theorem preview_highlights_window (lower : jsstring -> jsstring)
    (canon : code_unit -> code_unit) (query : jsstring)
    (maxResults contextLength : option Z) (st : store) (p : SearchPayload) :
  plain query = true ->
  search_pdfs (engine_host lower canon) query maxResults contextLength st
    = Normal p ->
  Forall (fun r => exists doc,
              In doc (Object_values st) /\ docId r = id doc /\
              Forall (fun m =>
                        preview m =
                        highlight_all canon query 0
                          (window doc query (or_default contextLength 200)
                                  (position m)))
                     (matches r))
         (results p).
Proof.
  intros Hq Hrun.
  apply (search_results_inv (engine_host lower canon)
           (fun doc m => preview m =
              highlight_all canon query 0
                (window doc query (or_default contextLength 200) (position m)))
           query maxResults contextLength st p); [| exact Hrun].
  intros doc index highlighted Hpv.
  cbn [host_preview engine_host] in Hpv.
  rewrite (make_preview_plain canon _ query Hq) in Hpv.
  injection Hpv as <-. reflexivity.
Qed.

Lemma preview_highlights_window_witness :
  exists p,
    search_pdfs (engine_host toLowerCase Canonicalize) (str "QUICK")
                (Some 10) (Some 5) fox_store
      = Normal p /\
    map (fun r => map preview (matches r)) (results p)
      = [[str "the **QUICK** brow"; str " the **QUICK** fox"]] /\
    Forall (fun r => exists doc,
                In doc (Object_values fox_store) /\ docId r = id doc /\
                Forall (fun m =>
                          preview m =
                          highlight_all Canonicalize (str "QUICK") 0
                            (window doc (str "QUICK") 5 (position m)))
                       (matches r))
           (results p).
Proof.
  eexists. split; [reflexivity |]. split; [reflexivity |].
  apply (preview_highlights_window toLowerCase Canonicalize (str "QUICK")
           (Some 10) (Some 5) fox_store).
  - reflexivity.
  - reflexivity.
Defined.

(** C5, as stated, fails: the preview is built from the window before it is
    trimmed, and an occurrence is replaced by the query as typed.  In
    [" Ab "] the context of the match of ["ab"] is ["Ab"], which wrapped
    is [**Ab**] (and [**ab**] with the query in its place), and the preview
    is [" **ab** "]. *)
Lemma preview_is_not_wrapped_context :
  exists p,
    search_pdfs modelled_host (str "ab") None None (single_store (str " Ab "))
      = Normal p /\
    map (fun r => map context (matches r)) (results p) = [[str "Ab"]] /\
    map (fun r => map preview (matches r)) (results p) = [[str " **ab** "]] /\
    wrap_all Canonicalize (str "ab") 0 (str "Ab") = str "**Ab**" /\
    highlight_all Canonicalize (str "ab") 0 (str "Ab") = str "**ab**" /\
    ~ Forall (fun r => Forall (fun m => preview m
                                        = wrap_all Canonicalize (str "ab") 0 (context m))
                              (matches r))
             (results p).
Proof.
  eexists. split; [reflexivity |].
  split; [reflexivity |]. split; [reflexivity |]. split; [reflexivity |].
  split; [reflexivity |].
  intros H. vm_compute in H.
  inversion H as [| r rs Hr _]. inversion Hr as [| m ms Hm _].
  discriminate Hm.
Qed.

(** C6, as amended: the handler validates none of its arguments.  For
    every query without syntax characters of the pattern grammar, the
    empty one included, and all integer values of maxResults and
    contextLength, the negative ones included, it returns a success
    payload with the query, the number of stored documents and the number
    of results.  With the empty query the scan does not advance and a
    document is given maxResults matches: this is stated for maxResults up
    to 4294967295, the largest length of an array.  It holds whatever the
    case conversion and the canonicalization of the engine are. *)
Theorem search_accepts_any_arguments (lower : jsstring -> jsstring)
    (canon : code_unit -> code_unit) (query : jsstring)
    (maxResults contextLength : option Z) (st : store) :
  plain query = true ->
  (query = [] -> or_default maxResults 10 <= 4294967295) ->
  exists p,
    search_pdfs (engine_host lower canon) query maxResults contextLength st
      = Normal p /\
    payload_query p = query /\
    totalDocuments p = len st /\
    resultsFound p = len (results p).
Proof.
  intros Hq _. unfold search_pdfs.
  destruct (search_loop_total (engine_host lower canon) query
              (or_default maxResults 10) (or_default contextLength 200)
              (fun doc => scan_document_total lower canon doc query _ _ Hq)
              (Object_values st) []) as [res Hres].
  rewrite Hres. cbn [bind]. eexists. split; [reflexivity |].
  cbn [payload_query totalDocuments resultsFound results].
  split; [reflexivity |]. split; [| reflexivity].
  unfold Object_keys, len. rewrite length_map. reflexivity.
Qed.

Lemma search_accepts_any_arguments_witness :
  (exists p,
     search_pdfs (engine_host toLowerCase Canonicalize) [] (Some (-1))
                 (Some (-1)) fox_store = Normal p /\
     map totalMatches (results p) = [1]) /\
  (exists p,
     search_pdfs (engine_host toLowerCase Canonicalize) [] (Some (-1))
                 (Some (-1)) fox_store = Normal p /\
     payload_query p = [] /\
     totalDocuments p = len fox_store /\
     resultsFound p = len (results p)).
Proof.
  split.
  - eexists. split; reflexivity.
  - apply (search_accepts_any_arguments toLowerCase Canonicalize []
             (Some (-1)) (Some (-1)) fox_store).
    + reflexivity.
    + intros _. simpl. lia.
Defined.

(** C6, as stated, fails: an empty query, a negative maxResults and a
    negative contextLength are each answered with a success payload. *)
Lemma invalid_arguments_not_rejected :
  ~ rejected (search_pdfs modelled_host [] None None fox_store) /\
  ~ rejected (search_pdfs modelled_host (str "quick") (Some (-1)) None
                          fox_store) /\
  ~ rejected (search_pdfs modelled_host (str "quick") None (Some (-1))
                          fox_store).
Proof.
  unfold rejected.
  repeat split; intros H;
    match type of H with
    | forall p, ?o <> _ =>
        let v := eval vm_compute in o in
        match v with
        | Normal ?q => apply (H q); vm_compute; reflexivity
        end
    end.
Qed.

End SearchProperties.

(* ------------------------------------------------------------------ *)
(** ** The search on given documents                                   *)
(* ------------------------------------------------------------------ *)

Section SearchScenarios.

(** C1: the handler throws on a query with a character that is special in
    a pattern.  The scan finds ["("] in ["f(x)"] as a plain text; the
    preview then hands ["("] to the RegExp constructor, which throws a
    SyntaxError that the handler does not catch. *)
Theorem search_throws_on_open_parenthesis :
  indexOf (toLowerCase (str "f(x)")) (toLowerCase (str "(")) 0 = 1 /\
  RegExp_new (str "(") = Throw SyntaxError /\
  search_pdfs modelled_host (str "(") None None (single_store (str "f(x)"))
    = Throw SyntaxError.
Proof. repeat split; reflexivity. Qed.

(** A special character that is a valid pattern does not throw but
    highlights what the scan did not locate: for ["."] every unit of the
    window is replaced. *)
Lemma search_dot_highlights_every_unit :
  exists p,
    search_pdfs modelled_host (str ".") None None (single_store (str "a.b"))
      = Normal p /\
    map (fun r => map position (matches r)) (results p) = [[1]] /\
    map (fun r => map preview (matches r)) (results p)
      = [[str "**.****.****.**"]].
Proof. eexists. repeat split; reflexivity. Qed.

(** C2: a reported position is an offset in the lower-cased copy of the
    content, which is not always an offset in the content.  The text
    U+0130, [" ab"] has four units and holds ["ab"] at offset 2; its lower
    case has five units, and the position reported is 3, with a context
    taken from the content at that offset. *)
Theorem position_is_offset_in_lowered_copy :
  len dotted_I_text = 4 /\
  len (toLowerCase dotted_I_text) = 5 /\
  occurrences lower_unit (str "ab") 0 0 dotted_I_text = [2] /\
  search_pdfs modelled_host (str "ab") (Some 10) (Some 0)
              (single_store dotted_I_text)
    = Normal {| payload_query := str "ab";
                totalDocuments := 1;
                resultsFound := 1;
                results :=
                  [sample_result 1 [ {| position := 3;
                                        context := str "b";
                                        preview := str "b" |} ]] |}.
Proof. repeat split; reflexivity. Qed.

(** C9, as amended: on the one document
    ["the quick brown fox the quick fox"], the search of ["quick"] with
    maxResults = 10 and contextLength = 5 yields exactly two matches, at the
    offsets 4 and 24, with the contexts ["the quick brow"] and
    ["the quick fox"] and a highlighted ["quick"] in each preview. *)
Theorem quick_fox_scenario :
  search_pdfs modelled_host (str "quick") (Some 10) (Some 5) fox_store
    = Normal {| payload_query := str "quick";
                totalDocuments := 1;
                resultsFound := 1;
                results :=
                  [sample_result 2
                     [ {| position := 4;
                          context := str "the quick brow";
                          preview := str "the **quick** brow" |};
                       {| position := 24;
                          context := str "the quick fox";
                          preview := str " the **quick** fox" |} ]] |}.
Proof. reflexivity. Qed.

(** C9, as stated, fails: the second match is not at offset 21, where the
    content reads ["he qu"]. *)
Lemma quick_fox_not_at_21 :
  exists p,
    search_pdfs modelled_host (str "quick") (Some 10) (Some 5) fox_store
      = Normal p /\
    map (fun r => map position (matches r)) (results p) <> [[4; 21]] /\
    units (str "the quick brown fox the quick fox") 21 26 = str "he qu".
Proof.
  eexists. split; [reflexivity |]. split; [| reflexivity].
  vm_compute. discriminate.
Qed.

End SearchScenarios.

(* ------------------------------------------------------------------ *)
(** ** Properties of get-pdf-content                                   *)
(* ------------------------------------------------------------------ *)

Section ContentProperties.

Lemma substring_beyond (s : jsstring) (a b : Z) :
  len s <= a -> len s <= b -> substring s a (Some b) = [].
Proof.
  intros Ha Hb. unfold substring. pose proof (len_nonneg s) as Hs.
  apply units_empty. lia.
Qed.

Lemma skipn_beyond (s : jsstring) (a : Z) :
  len s <= a -> skipn (Z.to_nat a) s = [].
Proof. intros Ha. apply skipn_all2. unfold len in Ha. lia. Qed.

(** C8, as amended: a docId that is neither a stored id nor the name of a
    property inherited from [Object.prototype] is answered with the error
    ["Document not found"] and nothing else; a stored docId with startChar
    at or beyond the content length, and length omitted or not negative,
    is answered with an empty content slice of contentLength 0. *)
Theorem content_of_unknown_or_beyond (docId : jsstring)
    (startChar length : option Z) (st : store) :
  (get_property st docId = Undefined ->
   get_pdf_content docId startChar length st
     = Normal (ContentError (str "Document not found"))) /\
  (forall doc,
      get_property st docId = Document doc ->
      len (content doc) <= or_default startChar 0 ->
      (forall l, length = Some l -> 0 <= l) ->
      get_pdf_content docId startChar length st
        = Normal (ContentOk (id doc) (filename doc) (or_default startChar 0)
                            0 [])).
Proof.
  split.
  - intros Hget. unfold get_pdf_content. rewrite Hget. reflexivity.
  - intros doc Hget Hbeyond Hlength. unfold get_pdf_content. rewrite Hget.
    assert (Hend : substring (content doc) (or_default startChar 0) None = []).
    { rewrite substring_to_end. apply skipn_beyond. exact Hbeyond. }
    destruct length as [l |].
    + specialize (Hlength l eq_refl).
      destruct (l =? 0).
      * rewrite Hend. reflexivity.
      * rewrite substring_beyond by lia. reflexivity.
    + rewrite Hend. reflexivity.
Qed.

Lemma content_of_unknown_or_beyond_witness :
  get_pdf_content (str "pdf_0_none") None (Some 3) (single_store (str "hello"))
    = Normal (ContentError (str "Document not found")) /\
  get_pdf_content (str "pdf_1_a") (Some 10) (Some 3) (single_store (str "hello"))
    = Normal (ContentOk (str "pdf_1_a") (str "sample.pdf") 10 0 []).
Proof.
  split.
  - apply (proj1 (content_of_unknown_or_beyond (str "pdf_0_none") None
                    (Some 3) (single_store (str "hello")))).
    reflexivity.
  - apply (proj2 (content_of_unknown_or_beyond (str "pdf_1_a") (Some 10)
                    (Some 3) (single_store (str "hello")))
                 (sample_document (str "pdf_1_a") (str "hello"))).
    + reflexivity.
    + vm_compute. discriminate.
    + intros l Hl. injection Hl as <-. lia.
Defined.

(** C8, as stated, fails on both halves.  The unknown docId
    ["constructor"] reads a function inherited from the prototype, which
    has no content: the handler throws a TypeError.  With startChar = 10
    beyond the five units of ["hello"] and length = -8, the bounds 10 and 2
    are clamped and swapped, and the slice is ["llo"]. *)
Lemma content_claim_broken :
  own_property (single_store (str "hello")) (str "constructor") = None /\
  get_pdf_content (str "constructor") None None (single_store (str "hello"))
    = Throw TypeError /\
  get_pdf_content (str "pdf_1_a") (Some 10) (Some (-8))
                  (single_store (str "hello"))
    = Normal (ContentOk (str "pdf_1_a") (str "sample.pdf") 10 3 (str "llo")).
Proof. repeat split; reflexivity. Qed.

(** C10: with length = 0 the handler answers as with length omitted: it
    returns all the content that follows startChar, with contentLength the
    length of that remainder, which is not empty while startChar lies
    before the end of the content. *)
Theorem zero_length_is_omitted_length (docId : jsstring)
    (startChar : option Z) (st : store) :
  get_pdf_content docId startChar (Some 0) st
    = get_pdf_content docId startChar None st /\
  (forall doc,
      get_property st docId = Document doc ->
      let remainder :=
        skipn (Z.to_nat (or_default startChar 0)) (content doc) in
      get_pdf_content docId startChar (Some 0) st
        = Normal (ContentOk (id doc) (filename doc) (or_default startChar 0)
                            (len remainder) remainder) /\
      (Z.max 0 (or_default startChar 0) < len (content doc) ->
       remainder <> [])).
Proof.
  split; [reflexivity |].
  intros doc Hget remainder. split.
  - unfold get_pdf_content. rewrite Hget. cbn [Z.eqb].
    rewrite substring_to_end. reflexivity.
  - intros Hin Hnil. subst remainder.
    apply (f_equal (@List.length code_unit)) in Hnil.
    rewrite length_skipn in Hnil. unfold len in Hin. simpl in Hnil. lia.
Qed.

Lemma zero_length_is_omitted_length_witness :
  get_pdf_content (str "pdf_1_a") (Some 2) (Some 0) (single_store (str "hello"))
    = Normal (ContentOk (str "pdf_1_a") (str "sample.pdf") 2 3 (str "llo")).
Proof.
  apply (proj2 (zero_length_is_omitted_length (str "pdf_1_a") (Some 2)
                  (single_store (str "hello")))
               (sample_document (str "pdf_1_a") (str "hello"))).
  reflexivity.
Defined.

End ContentProperties.

(* ------------------------------------------------------------------ *)
(** ** Properties of the identifiers                                   *)
(* ------------------------------------------------------------------ *)

Section Identifiers.

Lemma str_cons (c : ascii) (s : string) :
  str (String c s) = N_of_ascii c :: str s.
Proof. reflexivity. Qed.

Lemma N_of_ascii_inj (a b : ascii) : N_of_ascii a = N_of_ascii b -> a = b.
Proof.
  intros H. rewrite <- (ascii_N_embedding a), <- (ascii_N_embedding b).
  rewrite H. reflexivity.
Qed.

Lemma str_inj : forall s t : string, str s = str t -> s = t.
Proof.
  induction s as [| a s IH]; destruct t as [| b t]; intros H;
    try reflexivity; try discriminate H.
  rewrite !str_cons in H. injection H as Hab Hst.
  apply N_of_ascii_inj in Hab. apply IH in Hst. subst. reflexivity.
Qed.

Lemma string_of_int_inj (d1 d2 : Decimal.signed_int) :
  NilEmpty.string_of_int d1 = NilEmpty.string_of_int d2 -> d1 = d2.
Proof.
  intros H. apply (f_equal NilEmpty.int_of_string) in H.
  rewrite !NilEmpty.isi in H. injection H as H. exact H.
Qed.

Lemma number_to_string_inj (n m : Z) :
  number_to_string n = number_to_string m -> n = m.
Proof.
  unfold number_to_string. intros H.
  apply str_inj in H. apply string_of_int_inj in H.
  apply to_int_inj in H. exact H.
Qed.

(** A number is written with digits and a sign: no underscore. *)
Lemma uint_no_underscore (d : Decimal.uint) :
  ~ In 95%N (str (NilEmpty.string_of_uint d)).
Proof.
  induction d; cbn [NilEmpty.string_of_uint]; try rewrite str_cons;
    intros H; try (destruct H as [H | H]; [discriminate H | auto]).
  exact H.
Qed.

Lemma number_to_string_no_underscore (n : Z) :
  ~ In 95%N (number_to_string n).
Proof.
  unfold number_to_string.
  destruct (Z.to_int n) as [d | d]; cbn [NilEmpty.string_of_int].
  - apply uint_no_underscore.
  - rewrite str_cons. intros [H | H]; [discriminate H |].
    exact (uint_no_underscore d H).
Qed.

(** Two texts split at their first underscore. *)
Lemma split_at_underscore :
  forall a b s t : jsstring,
    ~ In 95%N a -> ~ In 95%N b ->
    a ++ 95%N :: s = b ++ 95%N :: t ->
    a = b /\ s = t.
Proof.
  induction a as [| x a IH]; intros b s t Ha Hb H.
  - destruct b as [| y b].
    + injection H as H. split; [reflexivity | exact H].
    + simpl in H. injection H as Hy _. exfalso. apply Hb. left.
      symmetry. exact Hy.
  - destruct b as [| y b].
    + simpl in H. injection H as Hx _. exfalso. apply Ha. left. exact Hx.
    + simpl in H. injection H as Hxy H.
      destruct (IH b s t) as [Hab Hst].
      * intros Hin. apply Ha. right. exact Hin.
      * intros Hin. apply Hb. right. exact Hin.
      * exact H.
      * subst. split; reflexivity.
Qed.

Lemma make_docId_key (e : Env) : make_docId e = docId_of_key (id_key e).
Proof. reflexivity. Qed.

(** The id determines the clock value and the random suffix it was made
    from. *)
Lemma docId_of_key_inj (k1 k2 : Z * jsstring) :
  docId_of_key k1 = docId_of_key k2 -> k1 = k2.
Proof.
  destruct k1 as [n1 s1], k2 as [n2 s2]. unfold docId_of_key.
  cbn [fst snd]. intros H.
  apply app_inv_head in H.
  change (str "_" ++ s1) with (95%N :: s1) in H.
  change (str "_" ++ s2) with (95%N :: s2) in H.
  apply split_at_underscore in H;
    try apply number_to_string_no_underscore.
  destruct H as [Hn Hs]. apply number_to_string_inj in Hn.
  subst. reflexivity.
Qed.

(** Two registrations get the same id exactly when they read the same
    clock value and the same random suffix. *)
Lemma make_docId_eq_iff (e1 e2 : Env) :
  make_docId e1 = make_docId e2 <-> id_key e1 = id_key e2.
Proof.
  rewrite !make_docId_key. split.
  - apply docId_of_key_inj.
  - intros ->. reflexivity.
Qed.

Lemma register_all_ids :
  forall calls st,
    returned_ids (snd (register_all calls st))
    = map docId_of_key (registration_keys calls).
Proof.
  induction calls as [| [[e path] x] calls IH]; intros st; [reflexivity |].
  cbn [register_all].
  destruct (register_pdf e path x st) as [st1 r] eqn:Hreg.
  specialize (IH st1).
  destruct (register_all calls st1) as [st2 rs].
  cbn [snd] in *. cbn [returned_ids registration_keys flat_map].
  fold (returned_ids rs). fold (registration_keys calls).
  rewrite IH. rewrite map_app. f_equal.
  destruct x as [p | message]; simpl in Hreg; injection Hreg as _ <-;
    reflexivity.
Qed.

Lemma folder_ids :
  forall files st ids,
    snd (registerPDFsFromFolder files st ids)
    = ids ++ map docId_of_key (registration_keys files).
Proof.
  induction files as [| [[e path] x] files IH]; intros st ids.
  - cbn. rewrite app_nil_r. reflexivity.
  - destruct x as [p | message]; cbn [registerPDFsFromFolder].
    + rewrite IH. rewrite <- app_assoc. reflexivity.
    + rewrite IH. reflexivity.
Qed.

(** C7, as amended: for every sequence of register calls of which no two
    read both the same clock value and the same nine-unit random suffix,
    the returned ids are pairwise distinct, whatever the file paths and
    contents; so are the ids of the files registered from a folder. *)
Theorem ids_distinct_for_distinct_keys
    (calls : list (Env * jsstring * Extraction)) (st : store) :
  NoDup (registration_keys calls) ->
  NoDup (returned_ids (snd (register_all calls st))) /\
  NoDup (snd (registerPDFsFromFolder calls st [])).
Proof.
  intros H.
  assert (Hids : NoDup (map docId_of_key (registration_keys calls))).
  { apply Finite.Injective_map_NoDup; [| exact H].
    intros k1 k2. apply docId_of_key_inj. }
  split.
  - rewrite register_all_ids. exact Hids.
  - rewrite folder_ids. exact Hids.
Qed.

Lemma ids_distinct_for_distinct_keys_witness :
  NoDup (returned_ids (snd (register_all distinct_calls []))) /\
  NoDup (snd (registerPDFsFromFolder distinct_calls [] [])).
Proof.
  apply (ids_distinct_for_distinct_keys distinct_calls []).
  constructor.
  - intros [H | []]. vm_compute in H. discriminate H.
  - constructor; [intros [] | constructor].
Defined.

(** C7, as stated, fails: two registrations that read the same clock value
    and draw the same random text get the same id, and the second document
    takes the place of the first in the store. *)
Lemma same_clock_same_draw_collide :
  returned_ids (snd (register_all colliding_calls []))
    = [str "pdf_1700000000000_4fzyo82mv"; str "pdf_1700000000000_4fzyo82mv"] /\
  ~ NoDup (returned_ids (snd (register_all colliding_calls []))) /\
  len (fst (register_all colliding_calls [])) = 1.
Proof.
  split; [reflexivity |]. split; [| reflexivity].
  intros H. vm_compute in H. inversion H as [| x l Hnotin _].
  apply Hnotin. left. reflexivity.
Qed.

End Identifiers.

(* ------------------------------------------------------------------ *)
(** ** The store under registrations and removals                  *)
(* ------------------------------------------------------------------ *)

Section StoreFacts.

Lemma jsstring_eqb_eq (a b : jsstring) : jsstring_eqb a b = true <-> a = b.
Proof.
  unfold jsstring_eqb. destruct (list_eq_dec N.eq_dec a b); split; intros H;
    try reflexivity; try assumption; try discriminate H. contradiction.
Qed.

Lemma jsstring_eqb_refl (a : jsstring) : jsstring_eqb a a = true.
Proof. apply jsstring_eqb_eq. reflexivity. Qed.

Lemma jsstring_eqb_neq (a b : jsstring) : a <> b -> jsstring_eqb a b = false.
Proof.
  intros H. destruct (jsstring_eqb a b) eqn:E; [| reflexivity].
  apply jsstring_eqb_eq in E. contradiction.
Qed.

Lemma own_set_same (st : store) (k : jsstring) (d : PDFDocument) :
  own_property (set_property st k d) k = Some d.
Proof.
  induction st as [| [k' d'] st IH]; cbn [set_property own_property].
  - rewrite jsstring_eqb_refl. reflexivity.
  - destruct (jsstring_eqb k' k) eqn:E; cbn [own_property]; rewrite E;
      [reflexivity | exact IH].
Qed.

Lemma own_set_other (st : store) (k k' : jsstring) (d : PDFDocument) :
  k <> k' -> own_property (set_property st k d) k' = own_property st k'.
Proof.
  intros Hk. induction st as [| [k0 d0] st IH]; cbn [set_property own_property].
  - rewrite (jsstring_eqb_neq k k' Hk). reflexivity.
  - destruct (jsstring_eqb k0 k) eqn:E; cbn [own_property].
    + apply jsstring_eqb_eq in E. subst k0.
      rewrite (jsstring_eqb_neq k k' Hk). reflexivity.
    + rewrite IH. reflexivity.
Qed.

Lemma own_delete_same (st : store) (k : jsstring) :
  own_property (delete_property st k) k = None.
Proof.
  unfold delete_property.
  induction st as [| [k0 d0] st IH]; cbn [filter own_property fst];
    [reflexivity |].
  destruct (jsstring_eqb k0 k) eqn:E; cbn [negb]; [exact IH |].
  cbn [own_property]. rewrite E. exact IH.
Qed.

Lemma own_delete_other (st : store) (k k' : jsstring) :
  k <> k' -> own_property (delete_property st k) k' = own_property st k'.
Proof.
  intros Hk. unfold delete_property.
  induction st as [| [k0 d0] st IH]; cbn [filter own_property fst];
    [reflexivity |].
  destruct (jsstring_eqb k0 k) eqn:E; cbn [negb].
  - apply jsstring_eqb_eq in E. subst k0.
    rewrite (jsstring_eqb_neq k k' Hk). exact IH.
  - cbn [own_property]. rewrite IH. reflexivity.
Qed.

Lemma get_property_own (st st' : store) (k : jsstring) :
  own_property st' k = own_property st k ->
  get_property st' k = get_property st k.
Proof. unfold get_property. intros ->. reflexivity. Qed.

Lemma substring_from_zero (s : jsstring) : substring s 0 None = s.
Proof. rewrite substring_to_end. reflexivity. Qed.

End StoreFacts.

Section StoreProperties.

Lemma own_none_keys (st : store) (k : jsstring) :
  own_property st k = None <-> ~ In k (Object_keys st).
Proof.
  induction st as [| [k0 d0] st IH]; cbn [own_property Object_keys map fst].
  - split; [intros _ [] | reflexivity].
  - destruct (jsstring_eqb k0 k) eqn:E.
    + apply jsstring_eqb_eq in E. subst k0. split; [discriminate |].
      intros H. exfalso. apply H. left. reflexivity.
    + rewrite IH. unfold Object_keys. split.
      * intros H [H0 | H0]; [| exact (H H0)].
        subst k0. rewrite jsstring_eqb_refl in E. discriminate E.
      * intros H H0. apply H. right. exact H0.
Qed.

(** A new key is added after the others; a key already there keeps its
    place. *)
Lemma set_property_new (st : store) (k : jsstring) (d : PDFDocument) :
  own_property st k = None -> set_property st k d = st ++ [(k, d)].
Proof.
  induction st as [| [k0 d0] st IH]; cbn [own_property set_property];
    [reflexivity |].
  destruct (jsstring_eqb k0 k); [discriminate |].
  intros H. rewrite (IH H). reflexivity.
Qed.

Lemma set_property_keys_old (st : store) (k : jsstring) (d : PDFDocument) :
  own_property st k <> None ->
  Object_keys (set_property st k d) = Object_keys st.
Proof.
  unfold Object_keys.
  induction st as [| [k0 d0] st IH]; cbn [own_property set_property];
    [intros H; contradiction |].
  destruct (jsstring_eqb k0 k); cbn [map fst]; [reflexivity |].
  intros H. rewrite (IH H). reflexivity.
Qed.

Lemma set_property_in (st : store) (k : jsstring) (d : PDFDocument)
    (kd : jsstring * PDFDocument) :
  In kd (set_property st k d) -> kd = (k, d) \/ In kd st.
Proof.
  induction st as [| [k0 d0] st IH]; cbn [set_property].
  - intros [H | []]. left. symmetry. exact H.
  - destruct (jsstring_eqb k0 k) eqn:E.
    + apply jsstring_eqb_eq in E. subst k0.
      intros [H | H]; [left; symmetry; exact H | right; right; exact H].
    + intros [H | H]; [right; left; exact H |].
      destruct (IH H) as [H0 | H0]; [left; exact H0 | right; right; exact H0].
Qed.

Lemma store_ok_set (st : store) (d : PDFDocument) :
  store_ok st -> store_ok (set_property st (id d) d).
Proof.
  intros [Hkeys Hids]. split.
  - destruct (own_property st (id d)) as [d0 |] eqn:Hown.
    + rewrite set_property_keys_old by (rewrite Hown; discriminate).
      exact Hkeys.
    + rewrite (set_property_new st (id d) d Hown).
      unfold Object_keys in *. rewrite map_app. cbn [map fst].
      apply NoDup_app; [exact Hkeys | constructor; [intros [] | constructor] |].
      intros k Hin [Hk | []]. subst k.
      apply own_none_keys in Hown. exact (Hown Hin).
  - apply Forall_forall. intros kd Hin.
    apply set_property_in in Hin. destruct Hin as [-> | Hin]; [reflexivity |].
    revert kd Hin. apply Forall_forall. exact Hids.
Qed.

Lemma store_ok_delete (st : store) (k : jsstring) :
  store_ok st -> store_ok (delete_property st k).
Proof.
  intros [Hkeys Hids]. unfold delete_property. split.
  - clear Hids. unfold Object_keys in *.
    induction st as [| [k0 d0] st IH]; cbn [filter map fst]; [constructor |].
    inversion Hkeys as [| x l Hnotin Hrest]; subst.
    destruct (negb (jsstring_eqb k0 k)); [| exact (IH Hrest)].
    cbn [map fst]. constructor; [| exact (IH Hrest)].
    intros Hin. apply Hnotin. apply in_map_iff in Hin.
    destruct Hin as [kd [Hfst Hin]]. apply filter_In in Hin.
    apply in_map_iff. exists kd. split; [exact Hfst | apply Hin].
  - apply Forall_forall. intros kd Hin. apply filter_In in Hin.
    destruct Hin as [Hin _]. revert kd Hin. apply Forall_forall. exact Hids.
Qed.

Lemma store_ok_register (e : Env) (path : jsstring) (x : Extraction)
    (st : store) :
  store_ok st -> store_ok (fst (register_pdf e path x st)).
Proof.
  intros H. destruct x as [p | message]; cbn [register_pdf fst]; [| exact H].
  apply (store_ok_set st (new_document e path p) H).
Qed.

Lemma store_ok_folder :
  forall files st ids,
    store_ok st -> store_ok (fst (registerPDFsFromFolder files st ids)).
Proof.
  induction files as [| [[e path] x] files IH]; intros st ids H; [exact H |].
  destruct x as [p | message]; cbn [registerPDFsFromFolder].
  - apply IH. apply (store_ok_set st (new_document e path p) H).
  - apply IH. exact H.
Qed.

Lemma store_ok_remove (docId : jsstring) (st : store) :
  store_ok st -> store_ok (fst (remove_pdf docId st)).
Proof.
  intros H. unfold remove_pdf.
  destruct (get_property st docId); cbn [fst];
    [exact H | apply store_ok_delete; exact H | exact H].
Qed.

Lemma store_ok_run (ops : list operation) :
  forall st, store_ok st -> store_ok (run_operations ops st).
Proof.
  unfold run_operations.
  induction ops as [| o ops IH]; intros st H; [exact H |].
  cbn [fold_left]. apply IH.
  destruct o as [e path x | files | docId]; cbn [apply_operation].
  - apply store_ok_register. exact H.
  - apply store_ok_folder. exact H.
  - apply store_ok_remove. exact H.
Qed.

(** Under distinct keys every stored document is the one found under its
    id. *)
Lemma own_property_of_stored (st : store) (doc : PDFDocument) :
  store_ok st -> In doc (Object_values st) ->
  own_property st (id doc) = Some doc.
Proof.
  intros [Hkeys Hids] Hin. unfold Object_values, Object_keys in *.
  induction st as [| [k0 d0] st IH]; [destruct Hin |].
  cbn [map fst snd] in *. inversion Hkeys as [| x l Hnotin Hrest]; subst.
  inversion Hids as [| y l' Hid0 Hids']; subst. cbn [fst snd] in Hid0.
  cbn [own_property].
  destruct Hin as [-> | Hin].
  - rewrite Hid0. rewrite jsstring_eqb_refl. reflexivity.
  - destruct (jsstring_eqb k0 (id doc)) eqn:E; [| exact (IH Hrest Hids' Hin)].
    apply jsstring_eqb_eq in E. exfalso. apply Hnotin. rewrite E.
    apply in_map_iff in Hin. destruct Hin as [[k d] [Hsnd Hin]].
    cbn [snd] in Hsnd. subst d. apply in_map_iff. exists (k, doc).
    split; [| exact Hin]. cbn [fst].
    assert (Hk : id (snd (k, doc)) = fst (k, doc)).
    { revert Hin. generalize (k, doc). apply Forall_forall. exact Hids'. }
    cbn [fst snd] in Hk. symmetry. exact Hk.
Qed.

End StoreProperties.

Section StoreTheorems.

Lemma inherited_names_start (n : jsstring) :
  In n prototype_properties -> firstn 2 n <> [112; 100]%N.
Proof.
  intros H. vm_compute in H.
  repeat (destruct H as [H | H]; [subst n; vm_compute; discriminate |]).
  destruct H.
Qed.

(** An id made by a registration is no name of an inherited property. *)
Lemma make_docId_not_inherited (e : Env) : not_inherited (make_docId e) = true.
Proof.
  unfold not_inherited. apply negb_true_iff. apply not_true_is_false.
  intros H. apply existsb_exists in H. destruct H as [n [Hin Heq]].
  apply jsstring_eqb_eq in Heq. subst n.
  apply inherited_names_start in Hin. apply Hin. reflexivity.
Qed.

Lemma get_property_missing (st : store) (k : jsstring) :
  own_property st k = None -> not_inherited k = true ->
  get_property st k = Undefined.
Proof.
  unfold get_property, not_inherited. intros -> H.
  apply negb_true_iff in H. rewrite H. reflexivity.
Qed.

(** X1: a registered document can be read back: after [register-pdf]
    answers with an id, [get-pdf-content] of that id, without bounds,
    returns the whole text of the document, its file name and its
    length; whatever the store held before. *)
Theorem registered_document_is_retrievable (e : Env) (path : jsstring)
    (p : PdfData) (st : store) :
  snd (register_pdf e path (Extracted p) st)
    = Registered (make_docId e) (basename path)
                 (pages_or_zero (numpages p)) (len (text p)) /\
  get_pdf_content (make_docId e) None None
                  (fst (register_pdf e path (Extracted p) st))
    = Normal (ContentOk (make_docId e) (basename path) 0 (len (text p))
                        (text p)).
Proof.
  split; [reflexivity |].
  cbn [register_pdf fst]. unfold get_pdf_content, get_property.
  cbn [new_document id]. rewrite own_set_same.
  cbn [or_default content filename id]. rewrite substring_from_zero.
  reflexivity.
Qed.

(** X2: a registration changes nothing under the other ids: what
    [get-pdf-content] answers for an id other than the new one is what it
    answered before. *)
Theorem registration_keeps_other_documents (e : Env) (path : jsstring)
    (x : Extraction) (st : store) (docId : jsstring)
    (startChar length : option Z) :
  docId <> make_docId e ->
  get_pdf_content docId startChar length (fst (register_pdf e path x st))
    = get_pdf_content docId startChar length st.
Proof.
  intros Hk. destruct x as [p | message]; cbn [register_pdf fst];
    [| reflexivity].
  unfold get_pdf_content.
  rewrite (get_property_own st (set_property st _ _) docId); [reflexivity |].
  apply own_set_other. cbn [new_document id]. intros H. apply Hk.
  symmetry. exact H.
Qed.

Lemma registration_keeps_other_documents_witness :
  get_pdf_content (str "pdf_1_a") (Some 4) (Some 5)
    (fst (register_pdf (sample_env "0.4fzyo82mvyr") (str "/docs/b.pdf")
            (Extracted {| text := str "other"; numpages := None;
                          parsed_info := None; buffer_length := 5 |})
            fox_store))
  = get_pdf_content (str "pdf_1_a") (Some 4) (Some 5) fox_store.
Proof.
  apply (registration_keeps_other_documents (sample_env "0.4fzyo82mvyr")).
  vm_compute. discriminate.
Defined.

(** X3: a removed document is gone.  When [remove-pdf] is called with a
    stored id that is no name of an inherited property, it answers with
    the file name of the document; afterwards [get-pdf-content] and a
    second [remove-pdf] of that id answer ["Document not found"], and the
    documents under the other ids are untouched. *)
Theorem removed_document_is_gone (docId : jsstring) (st : store)
    (doc : PDFDocument) :
  get_property st docId = Document doc ->
  not_inherited docId = true ->
  snd (remove_pdf docId st) = Removed (Some (filename doc)) docId /\
  (forall startChar length,
      get_pdf_content docId startChar length (fst (remove_pdf docId st))
        = Normal (ContentError (str "Document not found"))) /\
  remove_pdf docId (fst (remove_pdf docId st))
    = (fst (remove_pdf docId st), RemoveError (str "Document not found")) /\
  (forall other, other <> docId ->
      get_property (fst (remove_pdf docId st)) other = get_property st other).
Proof.
  intros Hget Hname.
  assert (Hrm : remove_pdf docId st
                = (delete_property st docId,
                   Removed (Some (filename doc)) docId)).
  { unfold remove_pdf. rewrite Hget. reflexivity. }
  rewrite Hrm. cbn [fst snd].
  assert (Hgone : get_property (delete_property st docId) docId = Undefined).
  { apply get_property_missing; [apply own_delete_same | exact Hname]. }
  split; [reflexivity |]. split; [| split].
  - intros startChar length. unfold get_pdf_content. rewrite Hgone.
    reflexivity.
  - unfold remove_pdf. rewrite Hgone. reflexivity.
  - intros other Hother. apply get_property_own. apply own_delete_other.
    intros H. apply Hother. symmetry. exact H.
Qed.

Lemma removed_document_is_gone_witness :
  snd (remove_pdf (str "pdf_1_a") fox_store)
    = Removed (Some (str "sample.pdf")) (str "pdf_1_a") /\
  (forall startChar length,
      get_pdf_content (str "pdf_1_a") startChar length
                      (fst (remove_pdf (str "pdf_1_a") fox_store))
        = Normal (ContentError (str "Document not found"))) /\
  remove_pdf (str "pdf_1_a") (fst (remove_pdf (str "pdf_1_a") fox_store))
    = (fst (remove_pdf (str "pdf_1_a") fox_store),
       RemoveError (str "Document not found")) /\
  (forall other, other <> str "pdf_1_a" ->
      get_property (fst (remove_pdf (str "pdf_1_a") fox_store)) other
        = get_property fox_store other).
Proof.
  apply (removed_document_is_gone (str "pdf_1_a") fox_store
           (sample_document (str "pdf_1_a")
              (str "the quick brown fox the quick fox"))).
  - reflexivity.
  - reflexivity.
Defined.

(** X4: every store reached from the empty one by registrations, folder
    registrations and removals, in any order, holds no id twice, and holds
    under each id a document with that id. *)
Theorem reachable_store_is_keyed_by_id (ops : list operation) :
  store_ok (run_operations ops []).
Proof.
  apply store_ok_run. split; constructor.
Qed.

End StoreTheorems.

Section StoreTheorems2.

(** X5: what a search returns can be fetched.  In a store keyed by id,
    every result of [search-pdfs] names a stored document: the result
    carries its file name and metadata, and [get-pdf-content] of the
    result's docId returns that document's whole content. *)
Theorem search_result_is_retrievable (h : Host) (query : jsstring)
    (maxResults contextLength : option Z) (st : store) (p : SearchPayload) :
  store_ok st ->
  search_pdfs h query maxResults contextLength st = Normal p ->
  Forall (fun r => exists doc,
              In doc (Object_values st) /\
              result_filename r = filename doc /\
              result_metadata r = metadata doc /\
              get_pdf_content (docId r) None None st
                = Normal (ContentOk (docId r) (result_filename r) 0
                                    (len (content doc)) (content doc)))
         (results p).
Proof.
  intros Hok Hrun. unfold search_pdfs in Hrun.
  destruct (search_loop _ _ _ _ _ _) as [res | e | b] eqn:Hloop;
    cbn [bind] in Hrun; try discriminate Hrun.
  injection Hrun as <-. cbn [results].
  eapply search_loop_inv; [| constructor | exact Hloop].
  intros doc found Hdoc _ _. exists doc.
  cbn [make_result docId result_filename result_metadata].
  split; [exact Hdoc |]. split; [reflexivity |]. split; [reflexivity |].
  unfold get_pdf_content, get_property.
  rewrite (own_property_of_stored st doc Hok Hdoc).
  cbn [or_default]. rewrite substring_from_zero. reflexivity.
Qed.

Lemma search_result_is_retrievable_witness :
  exists p,
    search_pdfs modelled_host (str "quick") None None fox_store = Normal p /\
    Forall (fun r => exists doc,
                In doc (Object_values fox_store) /\
                result_filename r = filename doc /\
                result_metadata r = metadata doc /\
                get_pdf_content (docId r) None None fox_store
                  = Normal (ContentOk (docId r) (result_filename r) 0
                                      (len (content doc)) (content doc)))
           (results p).
Proof.
  eexists. split; [reflexivity |].
  apply (search_result_is_retrievable modelled_host (str "quick") None None
           fox_store).
  - split.
    + constructor; [intros [] | constructor].
    + constructor; [reflexivity | constructor].
  - reflexivity.
Defined.

Lemma list_pdfs_entries (st : store) :
  list_pdfs st = (len (Object_values st), map entry_of (Object_values st)).
Proof.
  unfold list_pdfs. fold entry_of. unfold len. rewrite length_map.
  reflexivity.
Qed.

Lemma set_property_length_old (st : store) (k : jsstring) (d : PDFDocument) :
  own_property st k <> None ->
  List.length (set_property st k d) = List.length st.
Proof.
  intros H. pose proof (set_property_keys_old st k d H) as Hlen.
  apply (f_equal (@List.length jsstring)) in Hlen.
  unfold Object_keys in Hlen. rewrite !length_map in Hlen. exact Hlen.
Qed.

(** X6: [list-pdfs] after a registration.  A registration under an id
    that is not in the store adds one entry, after the entries already
    listed; a registration under an id already in the store leaves the
    number of documents as it was. *)
Theorem listing_after_registration (e : Env) (path : jsstring) (p : PdfData)
    (st : store) :
  (own_property st (make_docId e) = None ->
   list_pdfs (fst (register_pdf e path (Extracted p) st))
     = (fst (list_pdfs st) + 1,
        snd (list_pdfs st) ++ [entry_of (new_document e path p)])) /\
  (own_property st (make_docId e) <> None ->
   fst (list_pdfs (fst (register_pdf e path (Extracted p) st)))
     = fst (list_pdfs st)).
Proof.
  cbn [register_pdf fst]. rewrite !list_pdfs_entries. cbn [fst snd].
  cbn [new_document id]. fold (new_document e path p). split.
  - intros Hnew. rewrite (set_property_new st _ _ Hnew).
    unfold Object_values. rewrite map_app, map_app. cbn [map snd].
    rewrite len_snoc. reflexivity.
  - intros Hold. unfold Object_values, len. rewrite !length_map.
    rewrite (set_property_length_old st _ _ Hold). reflexivity.
Qed.

Lemma listing_after_registration_witness :
  list_pdfs (fst (register_pdf (sample_env "0.4fzyo82mvyr")
                    (str "/docs/sample.pdf")
                    (Extracted {| text := str "the quick brown fox";
                                  numpages := Some 1;
                                  parsed_info := None;
                                  buffer_length := 1024 |})
                    fox_store))
  = (fst (list_pdfs fox_store) + 1,
     snd (list_pdfs fox_store)
       ++ [entry_of (new_document (sample_env "0.4fzyo82mvyr")
                       (str "/docs/sample.pdf")
                       {| text := str "the quick brown fox";
                          numpages := Some 1;
                          parsed_info := None;
                          buffer_length := 1024 |})]).
Proof.
  apply (proj1 (listing_after_registration (sample_env "0.4fzyo82mvyr")
                  (str "/docs/sample.pdf") _ fox_store)).
  reflexivity.
Defined.

Lemma delete_present_length (st : store) (k : jsstring) (d : PDFDocument) :
  NoDup (Object_keys st) -> own_property st k = Some d ->
  len (delete_property st k) = len st - 1.
Proof.
  unfold delete_property, Object_keys, len.
  induction st as [| [k0 d0] st IH]; intros Hnd Hown; [discriminate Hown |].
  cbn [map fst] in Hnd. inversion Hnd as [| x l Hnotin Hrest]; subst.
  cbn [own_property] in Hown. cbn [filter fst].
  destruct (jsstring_eqb k0 k) eqn:E; cbn [negb].
  - apply jsstring_eqb_eq in E. subst k0.
    assert (Hfilter : filter (fun kd => negb (jsstring_eqb (fst kd) k)) st = st).
    { clear - Hnotin. induction st as [| [k1 d1] st IH]; [reflexivity |].
      cbn [filter fst].
      rewrite (jsstring_eqb_neq k1 k).
      - cbn [negb]. rewrite IH; [reflexivity |].
        intros H. apply Hnotin. right. exact H.
      - intros ->. apply Hnotin. left. reflexivity. }
    rewrite Hfilter. cbn [List.length]. lia.
  - cbn [List.length]. specialize (IH Hrest Hown).
    assert (Hpos : (0 < List.length st)%nat).
    { destruct st; [discriminate Hown | simpl; lia]. }
    lia.
Qed.

Lemma entries_of_deleted (st : store) (k : jsstring) :
  Forall (fun kd => id (snd kd) = fst kd) st ->
  map entry_of (Object_values (delete_property st k))
  = filter (fun en => negb (jsstring_eqb (entry_docId en) k))
           (map entry_of (Object_values st)).
Proof.
  unfold delete_property, Object_values.
  induction st as [| [k0 d0] st IH]; intros Hids; [reflexivity |].
  inversion Hids as [| x l Hid0 Hids']; subst. cbn [fst snd] in Hid0.
  cbn [filter map fst snd entry_of entry_docId]. fold (entry_of d0).
  rewrite Hid0.
  destruct (negb (jsstring_eqb k0 k)); cbn [map snd]; rewrite (IH Hids');
    reflexivity.
Qed.

(** X7: [list-pdfs] after a removal.  In a store keyed by id, removing a
    stored document takes one off the number of documents and leaves the
    entries of the other documents, in their order. *)
Theorem listing_after_removal (docId : jsstring) (st : store)
    (doc : PDFDocument) :
  store_ok st ->
  get_property st docId = Document doc ->
  list_pdfs (fst (remove_pdf docId st))
    = (fst (list_pdfs st) - 1,
       filter (fun en => negb (jsstring_eqb (entry_docId en) docId))
              (snd (list_pdfs st))).
Proof.
  intros [Hkeys Hids] Hget. unfold remove_pdf. rewrite Hget. cbn [fst].
  rewrite !list_pdfs_entries. cbn [fst snd].
  rewrite (entries_of_deleted st docId Hids). f_equal.
  unfold get_property in Hget.
  destruct (own_property st docId) as [d |] eqn:Hown.
  - pose proof (delete_present_length st docId d Hkeys Hown) as Hlen.
    unfold Object_values, len in *. rewrite !length_map. exact Hlen.
  - destruct (existsb _ _); discriminate Hget.
Qed.

Lemma listing_after_removal_witness :
  list_pdfs (fst (remove_pdf (str "pdf_1_a") fox_store))
    = (fst (list_pdfs fox_store) - 1,
       filter (fun en => negb (jsstring_eqb (entry_docId en) (str "pdf_1_a")))
              (snd (list_pdfs fox_store))).
Proof.
  apply (listing_after_removal (str "pdf_1_a") fox_store
           (sample_document (str "pdf_1_a")
              (str "the quick brown fox the quick fox"))).
  - split.
    + constructor; [intros [] | constructor].
    + constructor; [reflexivity | constructor].
  - reflexivity.
Defined.

(** X8: registering a folder is registering its files one after the
    other: [registerPDFsFromFolder] leaves the store that the sequence of
    [register-pdf] calls leaves, and returns the ids those calls return,
    the files that fail to load being skipped. *)
Theorem folder_is_sequence_of_registrations :
  forall (files : list (Env * jsstring * Extraction)) (st : store)
         (registeredIds : list jsstring),
    registerPDFsFromFolder files st registeredIds
    = (fst (register_all files st),
       registeredIds ++ returned_ids (snd (register_all files st))).
Proof.
  induction files as [| [[e path] x] files IH]; intros st ids.
  - cbn. rewrite app_nil_r. reflexivity.
  - cbn [register_all].
    destruct x as [p | message]; cbn [registerPDFsFromFolder register_pdf].
    + rewrite IH.
      destruct (register_all files (set_property st _ _)) as [st2 rs].
      cbn [fst snd returned_ids flat_map]. fold (returned_ids rs).
      rewrite <- app_assoc. reflexivity.
    + rewrite IH. destruct (register_all files st) as [st2 rs].
      cbn [fst snd returned_ids flat_map]. reflexivity.
Qed.

Lemma register_all_keeps (k : jsstring) :
  forall calls st,
    ~ In k (map docId_of_key (registration_keys calls)) ->
    own_property (fst (register_all calls st)) k = own_property st k.
Proof.
  induction calls as [| [[e path] x] calls IH]; intros st Hk; [reflexivity |].
  cbn [register_all].
  destruct (register_pdf e path x st) as [st1 r] eqn:Hreg.
  specialize (IH st1).
  destruct (register_all calls st1) as [st2 rs]. cbn [fst] in *.
  cbn [registration_keys flat_map] in Hk. fold (registration_keys calls) in Hk.
  rewrite map_app in Hk.
  rewrite IH by (intros H; apply Hk; apply in_or_app; right; exact H).
  destruct x as [p | message]; cbn [register_pdf] in Hreg;
    injection Hreg as <- _; [| reflexivity].
  apply own_set_other. cbn [new_document id]. intros H. apply Hk.
  apply in_or_app. left. left. rewrite <- make_docId_key. exact H.
Qed.

(** X9: documents stay retrievable.  After a sequence of registrations of
    which no two read both the same clock value and the same random
    suffix, each registered document is still read back under its id: the
    later registrations have not replaced it. *)
Theorem registered_documents_stay_retrievable
    (calls : list (Env * jsstring * Extraction)) (st : store)
    (e : Env) (path : jsstring) (p : PdfData) :
  NoDup (registration_keys calls) ->
  In (e, path, Extracted p) calls ->
  get_pdf_content (make_docId e) None None (fst (register_all calls st))
    = Normal (ContentOk (make_docId e) (basename path) 0 (len (text p))
                        (text p)).
Proof.
  revert st. induction calls as [| [[e0 path0] x0] calls IH];
    intros st Hnd Hin; [destruct Hin |].
  cbn [register_all].
  destruct (register_pdf e0 path0 x0 st) as [st1 r] eqn:Hreg.
  destruct (register_all calls st1) as [st2 rs] eqn:Hall. cbn [fst].
  assert (Hst2 : st2 = fst (register_all calls st1))
    by (rewrite Hall; reflexivity).
  cbn [registration_keys flat_map] in Hnd.
  fold (registration_keys calls) in Hnd.
  destruct Hin as [Hhead | Htail].
  - injection Hhead as -> -> ->. cbn [app] in Hnd.
    inversion Hnd as [| k l Hnotin Hrest]; subst k l.
    cbn [register_pdf] in Hreg. injection Hreg as <- _.
    unfold get_pdf_content, get_property. rewrite Hst2.
    rewrite register_all_keeps.
    + cbn [new_document id]. rewrite own_set_same.
      cbn [or_default content filename id]. rewrite substring_from_zero.
      reflexivity.
    + intros H. apply in_map_iff in H. destruct H as [k [Hk Hink]].
      rewrite make_docId_key in Hk. apply docId_of_key_inj in Hk.
      subst k. exact (Hnotin Hink).
  - rewrite Hst2. apply IH; [| exact Htail].
    destruct x0 as [p0 | message]; cbn [app] in Hnd.
    + inversion Hnd; assumption.
    + exact Hnd.
Qed.

Lemma registered_documents_stay_retrievable_witness :
  get_pdf_content (make_docId (sample_env "0.4fzyo82mvyr")) None None
                  (fst (register_all distinct_calls fox_store))
    = Normal (ContentOk (make_docId (sample_env "0.4fzyo82mvyr"))
                        (basename (str "/docs/sample.pdf")) 0
                        (len (str "the quick brown fox"))
                        (str "the quick brown fox")).
Proof.
  apply (registered_documents_stay_retrievable distinct_calls fox_store
           (sample_env "0.4fzyo82mvyr") (str "/docs/sample.pdf")
           {| text := str "the quick brown fox"; numpages := Some 1;
              parsed_info := None; buffer_length := 1024 |}).
  - constructor.
    + intros [H | []]. vm_compute in H. discriminate H.
    + constructor; [intros [] | constructor].
  - left. reflexivity.
Defined.

End StoreTheorems2.

(* ------------------------------------------------------------------ *)
(** ** What a search finds                                         *)
(* ------------------------------------------------------------------ *)

Section ScanFacts.

Variable h : Host.
Variable doc : PDFDocument.
Variables query queryLower contentLower : jsstring.
Variables maxResults contextLength : Z.

Let scan (fuel : nat) (startIndex : Z) (acc : list SearchMatch) :=
  scan_loop h fuel doc query queryLower contentLower maxResults contextLength
            startIndex acc.

(** The loop only adds to the matches it has. *)
Lemma scan_loop_grows :
  forall fuel startIndex acc found,
    scan fuel startIndex acc = Normal found -> len acc <= len found.
Proof.
  induction fuel as [| fuel IH]; intros startIndex acc found Hrun.
  - discriminate Hrun.
  - unfold scan in Hrun. rewrite scan_loop_step in Hrun.
    destruct (startIndex <? len contentLower);
      [| injection Hrun as <-; lia].
    cbv zeta in Hrun.
    destruct (indexOf contentLower queryLower startIndex =? -1);
      [injection Hrun as <-; lia |].
    destruct (host_preview h _ query) as [pv | e | b];
      cbn [bind] in Hrun; try discriminate Hrun.
    destruct (len _ >=? maxResults).
    + injection Hrun as <-. rewrite len_snoc. lia.
    + apply IH in Hrun. rewrite len_snoc in Hrun. lia.
Qed.

(** A property of the matches recorded at the offsets [indexOf] returns
    is a property of all the matches returned. *)
Lemma scan_loop_inv_index (P : SearchMatch -> Prop) :
  (forall startIndex highlighted,
      indexOf contentLower queryLower startIndex <> -1 ->
      P (recorded_match doc query contextLength
           (indexOf contentLower queryLower startIndex) highlighted)) ->
  forall fuel startIndex acc found,
    Forall P acc ->
    scan fuel startIndex acc = Normal found ->
    Forall P found.
Proof.
  intros HP.
  induction fuel as [| fuel IH]; intros startIndex acc found Hacc Hrun.
  - discriminate Hrun.
  - unfold scan in Hrun. rewrite scan_loop_step in Hrun.
    destruct (startIndex <? len contentLower);
      [| injection Hrun as <-; exact Hacc].
    cbv zeta in Hrun.
    destruct (indexOf contentLower queryLower startIndex =? -1) eqn:Hidx;
      [injection Hrun as <-; exact Hacc |].
    apply Z.eqb_neq in Hidx.
    destruct (host_preview h _ query) as [pv | e | b];
      cbn [bind] in Hrun; try discriminate Hrun.
    assert (Hacc' : Forall P (acc ++ [recorded_match doc query contextLength
              (indexOf contentLower queryLower startIndex) pv])).
    { apply Forall_app. split; [exact Hacc |].
      constructor; [apply HP; exact Hidx | constructor]. }
    destruct (len _ >=? maxResults).
    + injection Hrun as <-. exact Hacc'.
    + eapply IH; [exact Hacc' | exact Hrun].
Qed.

End ScanFacts.

Section IndexOf.

Lemma prefixb_firstn (p s : jsstring) :
  prefixb p s = true -> firstn (List.length p) s = p.
Proof.
  revert s. induction p as [| a p IH]; intros s H; [reflexivity |].
  destruct s as [| b s]; [discriminate H |].
  cbn [prefixb] in H. apply andb_true_iff in H. destruct H as [Hab H].
  apply N.eqb_eq in Hab. subst b. cbn [List.length firstn].
  rewrite (IH s H). reflexivity.
Qed.

Lemma find_from_prefix (p : jsstring) :
  forall (s : jsstring) (k i : nat),
    find_from p s k = Some i -> prefixb p (skipn (i - k) s) = true.
Proof.
  induction s as [| c s IH]; intros k i H; cbn [find_from] in H.
  - destruct (prefixb p []) eqn:E; [| discriminate H].
    injection H as <-. rewrite Nat.sub_diag. exact E.
  - destruct (prefixb p (c :: s)) eqn:E.
    + injection H as <-. rewrite Nat.sub_diag. exact E.
    + pose proof (find_from_ge p s (S k) i H) as Hge.
      apply IH in H.
      replace (i - k)%nat with (S (i - S k)) by lia. exact H.
Qed.

(** What [indexOf] returns, when it is not -1: an offset at or after the
    start, where the text searched for is found. *)
Lemma indexOf_found (s p : jsstring) (start : Z) :
  indexOf s p start <> -1 ->
  Z.max 0 (Z.min start (len s)) <= indexOf s p start /\
  units s (indexOf s p start) (indexOf s p start + len p) = p.
Proof.
  unfold indexOf. pose proof (len_nonneg s) as Hs.
  set (from := Z.min (Z.max start 0) (len s)).
  destruct (find_from p (skipn (Z.to_nat from) s) (Z.to_nat from))
    as [i |] eqn:Hfind; [| intros H; contradiction].
  intros _. pose proof (find_from_ge _ _ _ _ Hfind) as Hge.
  apply find_from_prefix in Hfind. split; [subst from; lia |].
  unfold units. replace (Z.of_nat i + len p - Z.of_nat i) with (len p) by lia.
  rewrite Nat2Z.id. unfold len. rewrite Nat2Z.id.
  rewrite skipn_skipn in Hfind.
  replace (i - Z.to_nat from + Z.to_nat from)%nat with i in Hfind by lia.
  apply prefixb_firstn. exact Hfind.
Qed.

End IndexOf.

Section SearchTheorems.

(** A document has matches exactly when the scan finds the query in it. *)
Lemma scan_document_found (h : Host) (doc : PDFDocument) (query : jsstring)
    (maxResults contextLength : Z) (found : list SearchMatch) :
  scan_document h doc query maxResults contextLength = Normal found ->
  (len found >? 0) = has_match h query doc.
Proof.
  unfold scan_document, scan_fuel, has_match. rewrite scan_loop_step.
  destruct (0 <? len (host_toLowerCase h (content doc)));
    [| intros H; injection H as <-; reflexivity].
  cbv zeta.
  destruct (indexOf _ _ 0 =? -1);
    [intros H; injection H as <-; reflexivity |].
  destruct (host_preview h _ query) as [pv | e | b]; cbn [bind];
    try discriminate.
  cbn [andb negb app].
  destruct (len _ >=? maxResults).
  - intros H. injection H as <-. reflexivity.
  - intros H. apply scan_loop_grows in H.
    change (len [recorded_match doc query contextLength
                   (indexOf (host_toLowerCase h (content doc))
                            (host_toLowerCase h query) 0) pv]) with 1 in H.
    apply Z.gtb_lt. lia.
Qed.

(** A document without the query is scanned without a preview being
    built. *)
Lemma scan_document_absent (h : Host) (doc : PDFDocument) (query : jsstring)
    (maxResults contextLength : Z) :
  has_match h query doc = false ->
  scan_document h doc query maxResults contextLength = Normal [].
Proof.
  unfold scan_document, scan_fuel, has_match. rewrite scan_loop_step.
  destruct (0 <? len (host_toLowerCase h (content doc))); [| reflexivity].
  cbv zeta. destruct (indexOf _ _ 0 =? -1); [reflexivity |].
  discriminate.
Qed.

Lemma search_loop_documents (h : Host) (query : jsstring)
    (maxResults contextLength : Z) :
  forall docs acc res,
    len acc < maxResults ->
    search_loop h docs query maxResults contextLength acc = Normal res ->
    map docId res =
    map docId acc ++
    firstn (Z.to_nat (maxResults - len acc))
           (map id (filter (has_match h query) docs)).
Proof.
  induction docs as [| doc docs IH]; intros acc res Hacc Hrun.
  - injection Hrun as <-. cbn [filter map]. rewrite firstn_nil, app_nil_r.
    reflexivity.
  - rewrite search_loop_step in Hrun.
    destruct (scan_document h doc query maxResults contextLength)
      as [found | e | b] eqn:Hscan; cbn [bind] in Hrun; try discriminate Hrun.
    cbv zeta in Hrun. apply scan_document_found in Hscan.
    cbn [filter]. rewrite <- Hscan.
    destruct (len found >? 0).
    + cbn [map].
      replace (Z.to_nat (maxResults - len acc))
        with (S (Z.to_nat (maxResults - (len acc + 1)))) by lia.
      cbn [firstn].
      destruct (len _ >=? maxResults) eqn:Hcap.
      * injection Hrun as <-. rewrite map_app. cbn [map make_result docId].
        rewrite Z.geb_leb in Hcap. apply Z.leb_le in Hcap.
        rewrite len_snoc in Hcap.
        replace (Z.to_nat (maxResults - (len acc + 1))) with 0%nat by lia.
        reflexivity.
      * rewrite Z.geb_leb in Hcap. apply Z.leb_gt in Hcap.
        apply IH in Hrun; [| exact Hcap].
        rewrite Hrun. rewrite len_snoc. rewrite map_app.
        cbn [map make_result docId]. rewrite <- app_assoc. reflexivity.
    + destruct (len acc >=? maxResults) eqn:Hcap.
      * rewrite Z.geb_leb in Hcap. apply Z.leb_le in Hcap. lia.
      * apply IH in Hrun; [exact Hrun | exact Hacc].
Qed.

(** X10: which documents a search returns.  For maxResults = k, an integer
    k >= 1, the results are those of the first k stored documents in which
    the scan finds the query, in the order of the store, one result for
    each; so resultsFound is k when k or more documents hold the query and
    the number of such documents otherwise.  This holds on every host. *)
Theorem results_are_first_matching_documents (h : Host) (query : jsstring)
    (maxResults contextLength : option Z) (st : store) (p : SearchPayload) :
  1 <= or_default maxResults 10 ->
  search_pdfs h query maxResults contextLength st = Normal p ->
  map docId (results p)
    = firstn (Z.to_nat (or_default maxResults 10))
             (map id (filter (has_match h query) (Object_values st))) /\
  resultsFound p
    = Z.min (or_default maxResults 10)
            (len (filter (has_match h query) (Object_values st))).
Proof.
  intros Hk Hrun. unfold search_pdfs in Hrun.
  destruct (search_loop _ _ _ _ _ _) as [res | e | b] eqn:Hloop;
    cbn [bind] in Hrun; try discriminate Hrun.
  injection Hrun as <-. cbn [results resultsFound].
  apply search_loop_documents in Hloop;
    [| change (len (@nil SearchResult)) with 0; lia].
  change (len (@nil SearchResult)) with 0 in Hloop.
  rewrite Z.sub_0_r in Hloop. cbn [map app] in Hloop.
  split; [exact Hloop |].
  apply (f_equal (@List.length jsstring)) in Hloop.
  rewrite length_map, length_firstn, length_map in Hloop.
  unfold len. lia.
Qed.

Lemma results_are_first_matching_documents_witness :
  exists p,
    search_pdfs modelled_host (str "quick") (Some 1) None
                (pair_store (str "the quick fox") (str "quick again")) = Normal p /\
    map docId (results p)
      = firstn 1 (map id (filter (has_match modelled_host (str "quick"))
                            (Object_values
                               (pair_store (str "the quick fox") (str "quick again")))))
    /\
    resultsFound p
      = Z.min 1 (len (filter (has_match modelled_host (str "quick"))
                        (Object_values
                           (pair_store (str "the quick fox") (str "quick again"))))).
Proof.
  eexists. split; [reflexivity |].
  apply (results_are_first_matching_documents modelled_host (str "quick")
           (Some 1) None (pair_store (str "the quick fox") (str "quick again"))).
  - simpl. lia.
  - reflexivity.
Defined.

Lemma search_loop_absent (h : Host) (query : jsstring)
    (maxResults contextLength : Z) :
  forall docs,
    forallb (fun doc => negb (has_match h query doc)) docs = true ->
    search_loop h docs query maxResults contextLength [] = Normal [].
Proof.
  induction docs as [| doc docs IH]; intros H; [reflexivity |].
  cbn [forallb] in H. apply andb_true_iff in H. destruct H as [Hdoc Hdocs].
  apply negb_true_iff in Hdoc.
  rewrite search_loop_step.
  rewrite (scan_document_absent h doc query maxResults contextLength Hdoc).
  cbn [bind]. cbv zeta. change (len (@nil SearchMatch) >? 0) with false.
  cbv iota. destruct (len _ >=? maxResults); [reflexivity | exact (IH Hdocs)].
Qed.

(** X11: a query that the scan finds in no stored document, and any query
    on the empty store, is answered with an empty result list and
    resultsFound = 0, whatever the characters of the query and the values
    of the limits: no pattern is built when nothing is found.  This holds
    on every host. *)
Theorem absent_query_gives_no_result (h : Host) (query : jsstring)
    (maxResults contextLength : option Z) (st : store) :
  forallb (fun doc => negb (has_match h query doc)) (Object_values st) = true ->
  search_pdfs h query maxResults contextLength st
    = Normal {| payload_query := query;
                totalDocuments := len st;
                resultsFound := 0;
                results := [] |}.
Proof.
  intros H. unfold search_pdfs.
  rewrite (search_loop_absent h query _ _ (Object_values st) H).
  cbn [bind]. unfold Object_keys, len. rewrite length_map. reflexivity.
Qed.

Lemma absent_query_gives_no_result_witness :
  search_pdfs modelled_host (str "(") (Some 0) (Some (-3)) fox_store
    = Normal {| payload_query := str "(";
                totalDocuments := len fox_store;
                resultsFound := 0;
                results := [] |}.
Proof.
  apply (absent_query_gives_no_result modelled_host (str "(") (Some 0)
           (Some (-3)) fox_store).
  reflexivity.
Defined.

End SearchTheorems.

Section PositionTheorems.

Lemma search_results_inv_index (h : Host)
    (P : PDFDocument -> SearchMatch -> Prop)
    (query : jsstring) (maxResults contextLength : option Z) (st : store)
    (p : SearchPayload) :
  (forall doc startIndex highlighted,
      indexOf (host_toLowerCase h (content doc)) (host_toLowerCase h query)
              startIndex <> -1 ->
      P doc (recorded_match doc query (or_default contextLength 200)
               (indexOf (host_toLowerCase h (content doc))
                        (host_toLowerCase h query) startIndex)
               highlighted)) ->
  search_pdfs h query maxResults contextLength st = Normal p ->
  Forall (fun r => exists doc,
              In doc (Object_values st) /\ docId r = id doc /\
              Forall (P doc) (matches r))
         (results p).
Proof.
  intros HP Hrun. unfold search_pdfs in Hrun.
  destruct (search_loop _ _ _ _ _ _) as [res | e | b] eqn:Hloop;
    cbn [bind] in Hrun; try discriminate Hrun.
  injection Hrun as <-. cbn [results].
  eapply search_loop_inv; [| constructor | exact Hloop].
  intros doc found Hdoc Hscan _. exists doc.
  split; [exact Hdoc |]. split; [reflexivity |].
  cbn [make_result matches]. apply Forall_array_slice.
  unfold scan_document in Hscan.
  eapply scan_loop_inv_index; [| constructor | exact Hscan].
  intros startIndex highlighted Hidx. apply HP. exact Hidx.
Qed.

(** X12: every reported position is an offset of the lower-cased content
    at which the lower-cased query is found: the units of the copy from
    that offset on, as many as the lower-cased query has, are the
    lower-cased query.  This holds on every host. *)
Theorem position_is_occurrence_in_lowered_content (h : Host)
    (query : jsstring) (maxResults contextLength : option Z) (st : store)
    (p : SearchPayload) :
  search_pdfs h query maxResults contextLength st = Normal p ->
  Forall (fun r => exists doc,
              In doc (Object_values st) /\ docId r = id doc /\
              Forall (fun m =>
                        0 <= position m /\
                        units (host_toLowerCase h (content doc)) (position m)
                              (position m + len (host_toLowerCase h query))
                        = host_toLowerCase h query)
                     (matches r))
         (results p).
Proof.
  apply search_results_inv_index.
  intros doc startIndex highlighted Hidx. cbn [recorded_match position].
  destruct (indexOf_found _ _ _ Hidx) as [Hge Hocc].
  split; [lia | exact Hocc].
Qed.

Lemma position_is_occurrence_in_lowered_content_witness :
  exists p,
    search_pdfs modelled_host (str "QUICK") None None fox_store = Normal p /\
    Forall (fun r => exists doc,
                In doc (Object_values fox_store) /\ docId r = id doc /\
                Forall (fun m =>
                          0 <= position m /\
                          units (toLowerCase (content doc)) (position m)
                                (position m + len (toLowerCase (str "QUICK")))
                          = toLowerCase (str "QUICK"))
                       (matches r))
           (results p).
Proof.
  eexists. split; [reflexivity |].
  apply (position_is_occurrence_in_lowered_content modelled_host
           (str "QUICK") None None fox_store).
  reflexivity.
Defined.

Lemma spaced_snoc (d i : Z) (l : list Z) :
  spaced d l -> Forall (fun x => x + d <= i) l -> spaced d (l ++ [i]).
Proof.
  induction l as [| a l IH]; intros Hs Hall; [exact I |].
  inversion Hall as [| x l' Ha Hall']; subst.
  destruct l as [| b l]; [cbn; split; [exact Ha | exact I] |].
  cbn [app spaced] in *. destruct Hs as [Hab Hs].
  split; [exact Hab | exact (IH Hs Hall')].
Qed.

Lemma spaced_firstn (d : Z) (n : nat) :
  forall l, spaced d l -> spaced d (firstn n l).
Proof.
  induction n as [| n IH]; intros l Hs; [exact I |].
  destruct l as [| a l]; [exact I |].
  destruct l as [| b l]; [destruct n; exact I |].
  cbn [spaced] in Hs. destruct Hs as [Hab Hs].
  specialize (IH (b :: l) Hs).
  destruct n as [| n]; [exact I |].
  cbn [firstn spaced] in *. split; [exact Hab | exact IH].
Qed.

Lemma array_slice_prefix {A : Type} (a : list A) (e : Z) :
  exists n, array_slice a 0 e = firstn n a.
Proof.
  unfold array_slice. pose proof (len_nonneg a) as Ha.
  destruct (0 <? 0) eqn:E0; [apply Z.ltb_lt in E0; lia |].
  replace (Z.to_nat (Z.min 0 (len a))) with 0%nat by lia.
  eexists. reflexivity.
Qed.

Lemma scan_loop_spaced (h : Host) (doc : PDFDocument)
    (query queryLower contentLower : jsstring)
    (maxResults contextLength : Z) :
  forall fuel startIndex acc found,
    0 <= startIndex ->
    spaced (len query) (map position acc) ->
    Forall (fun x => x + len query <= startIndex) (map position acc) ->
    scan_loop h fuel doc query queryLower contentLower maxResults
              contextLength startIndex acc = Normal found ->
    spaced (len query) (map position found).
Proof.
  pose proof (len_nonneg query) as Hq.
  induction fuel as [| fuel IH]; intros startIndex acc found H0 Hs Hall Hrun.
  - discriminate Hrun.
  - rewrite scan_loop_step in Hrun.
    destruct (startIndex <? len contentLower) eqn:Hlt;
      [| injection Hrun as <-; exact Hs].
    apply Z.ltb_lt in Hlt. cbv zeta in Hrun.
    destruct (indexOf contentLower queryLower startIndex =? -1) eqn:Hidx;
      [injection Hrun as <-; exact Hs |].
    apply Z.eqb_neq in Hidx.
    destruct (indexOf_found _ _ _ Hidx) as [Hge _].
    set (index := indexOf contentLower queryLower startIndex) in *.
    destruct (host_preview h _ query) as [pv | e | b];
      cbn [bind] in Hrun; try discriminate Hrun.
    assert (Hall' : Forall (fun x => x + len query <= index)
                           (map position acc)).
    { eapply Forall_impl; [| exact Hall]. cbv beta. intros x Hx. lia. }
    assert (Hs' : spaced (len query)
                    (map position
                       (acc ++ [recorded_match doc query contextLength
                                  index pv]))).
    { rewrite map_app. cbn [map recorded_match position].
      apply spaced_snoc; assumption. }
    destruct (len _ >=? maxResults).
    + injection Hrun as <-. exact Hs'.
    + eapply IH; [| exact Hs' | | exact Hrun].
      * lia.
      * rewrite map_app. cbn [map recorded_match position].
        apply Forall_app. split.
        -- eapply Forall_impl; [| exact Hall']. cbv beta. intros x Hx. lia.
        -- constructor; [lia | constructor].
Qed.

(** X13: the matches of a document do not overlap.  In every result the
    reported positions increase, each at least query.length after the one
    before.  This holds on every host. *)
Theorem positions_do_not_overlap (h : Host) (query : jsstring)
    (maxResults contextLength : option Z) (st : store) (p : SearchPayload) :
  search_pdfs h query maxResults contextLength st = Normal p ->
  Forall (fun r => spaced (len query) (map position (matches r))) (results p).
Proof.
  intros Hrun. unfold search_pdfs in Hrun.
  destruct (search_loop _ _ _ _ _ _) as [res | e | b] eqn:Hloop;
    cbn [bind] in Hrun; try discriminate Hrun.
  injection Hrun as <-. cbn [results].
  eapply search_loop_inv; [| constructor | exact Hloop].
  intros doc found _ Hscan _. cbn [make_result matches].
  destruct (array_slice_prefix found
              (Z.min (len found) (or_default maxResults 10))) as [n ->].
  rewrite <- firstn_map. apply spaced_firstn.
  unfold scan_document in Hscan.
  eapply scan_loop_spaced; [| | | exact Hscan].
  - lia.
  - exact I.
  - constructor.
Qed.

Lemma positions_do_not_overlap_witness :
  exists p,
    search_pdfs modelled_host (str "aa") None None (single_store (str "aaaaa"))
      = Normal p /\
    map (fun r => map position (matches r)) (results p) = [[0; 2]] /\
    Forall (fun r => spaced (len (str "aa")) (map position (matches r)))
           (results p).
Proof.
  eexists. split; [reflexivity |]. split; [reflexivity |].
  apply (positions_do_not_overlap modelled_host (str "aa") None None
           (single_store (str "aaaaa"))).
  reflexivity.
Defined.



End PositionTheorems.

(* ------------------------------------------------------------------ *)
(** ** Reads, removals and file names                              *)
(* ------------------------------------------------------------------ *)

Section ContentTheorems.

Lemma firstn_add {A : Type} (n m : nat) :
  forall t : list A, firstn n t ++ firstn m (skipn n t) = firstn (n + m) t.
Proof.
  induction n as [| n IH]; intros t; [reflexivity |].
  destruct t as [| x t]; [cbn; rewrite firstn_nil; reflexivity |].
  cbn [firstn skipn Nat.add app]. rewrite IH. reflexivity.
Qed.

Lemma units_split (s : jsstring) (x y z : Z) :
  0 <= x <= y -> y <= z ->
  units s x y ++ units s y z = units s x z.
Proof.
  intros Hxy Hyz. unfold units.
  replace (Z.to_nat y) with (Z.to_nat x + Z.to_nat (y - x))%nat by lia.
  rewrite Nat.add_comm, <- skipn_skipn.
  rewrite firstn_add. f_equal. lia.
Qed.

Lemma substring_ordered_bounds (s : jsstring) (a b : Z) :
  a <= b ->
  substring s a (Some b)
  = units s (Z.min (Z.max a 0) (len s)) (Z.min (Z.max b 0) (len s)).
Proof.
  intros Hab. unfold substring. cbv zeta.
  set (x := Z.min (Z.max a 0) (len s)).
  set (y := Z.min (Z.max b 0) (len s)).
  assert (Hxy : x <= y) by (unfold x, y; lia).
  rewrite (Z.min_l x y Hxy), (Z.max_r x y Hxy). reflexivity.
Qed.

Lemma substring_swap (s : jsstring) (a b : Z) :
  substring s a (Some b) = substring s b (Some a).
Proof.
  unfold substring. cbv zeta.
  rewrite (Z.min_comm (Z.min (Z.max a 0) (len s))),
          (Z.max_comm (Z.min (Z.max a 0) (len s))).
  reflexivity.
Qed.

(** X15: reads in chunks.  For a stored document, any startChar s and two
    lengths l1 > 0 and l2 > 0, the slice [get-pdf-content] returns for
    (s, l1 + l2) is the slice for (s, l1) followed by the slice for
    (s + l1, l2), and its contentLength is the sum of theirs. *)
Theorem chunked_reads_concatenate (docId : jsstring) (st : store)
    (doc : PDFDocument) (s l1 l2 : Z) :
  get_property st docId = Document doc ->
  0 < l1 -> 0 < l2 ->
  exists a b,
    get_pdf_content docId (Some s) (Some l1) st
      = Normal (ContentOk (id doc) (filename doc) s (len a) a) /\
    get_pdf_content docId (Some (s + l1)) (Some l2) st
      = Normal (ContentOk (id doc) (filename doc) (s + l1) (len b) b) /\
    get_pdf_content docId (Some s) (Some (l1 + l2)) st
      = Normal (ContentOk (id doc) (filename doc) s (len a + len b) (a ++ b)).
Proof.
  intros Hdoc H1 H2. unfold get_pdf_content. rewrite Hdoc.
  cbn [or_default].
  destruct (l1 =? 0) eqn:E1; [apply Z.eqb_eq in E1; lia |].
  destruct (l2 =? 0) eqn:E2; [apply Z.eqb_eq in E2; lia |].
  destruct (l1 + l2 =? 0) eqn:E3; [apply Z.eqb_eq in E3; lia |].
  exists (substring (content doc) s (Some (s + l1))).
  exists (substring (content doc) (s + l1) (Some (s + l1 + l2))).
  split; [reflexivity |]. split; [reflexivity |].
  rewrite <- len_app.
  rewrite !substring_ordered_bounds by lia.
  pose proof (len_nonneg (content doc)) as Hlen.
  rewrite units_split by lia.
  rewrite Z.add_assoc. reflexivity.
Qed.

Lemma chunked_reads_concatenate_witness :
  exists a b,
    get_pdf_content (str "pdf_1_a") (Some 4) (Some 5) fox_store
      = Normal (ContentOk (str "pdf_1_a") (str "sample.pdf") 4 (len a) a) /\
    get_pdf_content (str "pdf_1_a") (Some (4 + 5)) (Some 6) fox_store
      = Normal (ContentOk (str "pdf_1_a") (str "sample.pdf") (4 + 5)
                          (len b) b) /\
    get_pdf_content (str "pdf_1_a") (Some 4) (Some (5 + 6)) fox_store
      = Normal (ContentOk (str "pdf_1_a") (str "sample.pdf") 4
                          (len a + len b) (a ++ b)).
Proof.
  apply (chunked_reads_concatenate (str "pdf_1_a") fox_store
           (sample_document (str "pdf_1_a")
              (str "the quick brown fox the quick fox")) 4 5 6).
  - reflexivity.
  - lia.
  - lia.
Defined.

(** X16: a negative length reads backwards.  For a stored document, a
    length l < 0 and a startChar s with 0 <= s + l and s no greater than
    the length of the content, [get-pdf-content] answers with the -l units
    of the content that end at offset s: they start at offset s + l, the
    contentLength is -l, and the startChar echoed is s. *)
Theorem negative_length_reads_backwards (docId : jsstring) (st : store)
    (doc : PDFDocument) (s l : Z) :
  get_property st docId = Document doc ->
  l < 0 ->
  0 <= s + l ->
  s <= len (content doc) ->
  exists before slice after,
    content doc = before ++ slice ++ after /\
    len before = s + l /\
    len slice = - l /\
    get_pdf_content docId (Some s) (Some l) st
      = Normal (ContentOk (id doc) (filename doc) s (- l) slice).
Proof.
  intros Hdoc Hl H0 Hs.
  exists (firstn (Z.to_nat (s + l)) (content doc)).
  exists (firstn (Z.to_nat (- l)) (skipn (Z.to_nat (s + l)) (content doc))).
  exists (skipn (Z.to_nat (- l)) (skipn (Z.to_nat (s + l)) (content doc))).
  assert (Hbefore : len (firstn (Z.to_nat (s + l)) (content doc)) = s + l).
  { unfold len in *. rewrite length_firstn. lia. }
  assert (Hslice : len (firstn (Z.to_nat (- l))
                          (skipn (Z.to_nat (s + l)) (content doc))) = - l).
  { unfold len in *. rewrite length_firstn, length_skipn. lia. }
  split; [rewrite !firstn_skipn; reflexivity |].
  split; [exact Hbefore |]. split; [exact Hslice |].
  unfold get_pdf_content. rewrite Hdoc. cbn [or_default].
  destruct (l =? 0) eqn:E; [apply Z.eqb_eq in E; lia |].
  rewrite (substring_swap (content doc) s (s + l)).
  rewrite substring_ordered_bounds by lia.
  replace (Z.min (Z.max (s + l) 0) (len (content doc))) with (s + l) by lia.
  replace (Z.min (Z.max s 0) (len (content doc))) with s by lia.
  unfold units. replace (s - (s + l)) with (- l) by lia.
  rewrite Hslice. reflexivity.
Qed.

Lemma negative_length_reads_backwards_witness :
  get_pdf_content (str "pdf_1_a") (Some 9) (Some (-5)) fox_store
    = Normal (ContentOk (str "pdf_1_a") (str "sample.pdf") 9 5 (str "quick"))
  /\
  exists before slice after,
    str "the quick brown fox the quick fox" = before ++ slice ++ after /\
    len before = 9 + -5 /\
    len slice = - -5 /\
    get_pdf_content (str "pdf_1_a") (Some 9) (Some (-5)) fox_store
      = Normal (ContentOk (str "pdf_1_a") (str "sample.pdf") 9 (- -5) slice).
Proof.
  split; [reflexivity |].
  apply (negative_length_reads_backwards (str "pdf_1_a") fox_store
           (sample_document (str "pdf_1_a")
              (str "the quick brown fox the quick fox")) 9 (-5)).
  - reflexivity.
  - lia.
  - lia.
  - vm_compute. discriminate.
Defined.

End ContentTheorems.

Section RemovalAndSearch.

Lemma deleted_values_ids (st : store) (k : jsstring) (doc : PDFDocument) :
  Forall (fun kd => id (snd kd) = fst kd) st ->
  In doc (Object_values (delete_property st k)) ->
  id doc <> k /\ In doc (Object_values st).
Proof.
  intros Hids Hin. unfold Object_values, delete_property in Hin.
  apply in_map_iff in Hin. destruct Hin as [[k0 d0] [Heq Hin]].
  cbn [snd] in Heq. subst d0.
  apply filter_In in Hin. destruct Hin as [Hin Hneq]. cbn [fst] in Hneq.
  rewrite Forall_forall in Hids. specialize (Hids _ Hin).
  cbn [fst snd] in Hids. split.
  - rewrite Hids. intros ->. rewrite jsstring_eqb_refl in Hneq.
    discriminate Hneq.
  - unfold Object_values. apply in_map_iff. exists (k0, doc).
    split; [reflexivity | exact Hin].
Qed.

(** X17: a removed document is not searched.  In a store keyed by id,
    after [remove-pdf] of a stored document no result of [search-pdfs]
    names the removed docId, every result names a document that was
    stored before, and totalDocuments is one less than the number of
    documents before.  This holds on every host. *)
Theorem removed_document_is_not_searched (h : Host) (docId0 : jsstring)
    (st : store) (doc : PDFDocument) (query : jsstring)
    (maxResults contextLength : option Z) (p : SearchPayload) :
  store_ok st ->
  get_property st docId0 = Document doc ->
  search_pdfs h query maxResults contextLength (fst (remove_pdf docId0 st))
    = Normal p ->
  totalDocuments p = len st - 1 /\
  Forall (fun r => docId r <> docId0 /\
                   exists d, In d (Object_values st) /\ docId r = id d)
         (results p).
Proof.
  intros [Hkeys Hids] Hdoc Hrun.
  unfold remove_pdf in Hrun. rewrite Hdoc in Hrun. cbn [fst] in Hrun.
  unfold search_pdfs in Hrun.
  destruct (search_loop _ _ _ _ _ _) as [res | e | b] eqn:Hloop;
    cbn [bind] in Hrun; try discriminate Hrun.
  injection Hrun as <-. cbn [results totalDocuments]. split.
  - unfold get_property in Hdoc.
    destruct (own_property st docId0) as [d |] eqn:Hown.
    + replace (len (Object_keys (delete_property st docId0)))
        with (len (delete_property st docId0))
        by (unfold Object_keys, len; rewrite length_map; reflexivity).
      exact (delete_present_length st docId0 d Hkeys Hown).
    + destruct (existsb _ _); discriminate Hdoc.
  - eapply search_loop_inv; [| constructor | exact Hloop].
    intros d found Hd _ _. cbn [make_result docId].
    destruct (deleted_values_ids st docId0 d Hids Hd) as [Hneq Hin].
    split; [exact Hneq |]. exists d. split; [exact Hin | reflexivity].
Qed.

Lemma removed_document_is_not_searched_witness :
  exists p,
    search_pdfs modelled_host (str "quick") None None
      (fst (remove_pdf (str "pdf_1_a")
              (pair_store (str "the quick fox") (str "quick again"))))
      = Normal p /\
    map docId (results p) = [str "pdf_2_b"] /\
    totalDocuments p
      = len (pair_store (str "the quick fox") (str "quick again")) - 1 /\
    Forall (fun r => docId r <> str "pdf_1_a" /\
                     exists d,
                       In d (Object_values
                               (pair_store (str "the quick fox")
                                           (str "quick again"))) /\
                       docId r = id d)
           (results p).
Proof.
  eexists. split; [reflexivity |]. split; [reflexivity |].
  apply (removed_document_is_not_searched modelled_host (str "pdf_1_a")
           (pair_store (str "the quick fox") (str "quick again"))
           (sample_document (str "pdf_1_a") (str "the quick fox"))
           (str "quick") None None).
  - split.
    + constructor.
      * intros [H | []]. discriminate H.
      * constructor; [intros [] | constructor].
    + repeat constructor.
  - reflexivity.
  - reflexivity.
Defined.

Lemma scan_document_throws (h : Host) (doc : PDFDocument)
    (query : jsstring) (maxResults contextLength : Z) (e : exn) :
  (forall subject, host_preview h subject query = Throw e) ->
  has_match h query doc = true ->
  scan_document h doc query maxResults contextLength = Throw e.
Proof.
  intros Hpv Hm. unfold has_match in Hm.
  apply andb_true_iff in Hm. destruct Hm as [Hlen Hidx].
  apply negb_true_iff in Hidx.
  unfold scan_document, scan_fuel. rewrite scan_loop_step.
  rewrite Hlen. cbv zeta. rewrite Hidx. rewrite Hpv. reflexivity.
Qed.

Lemma search_loop_throws (h : Host) (query : jsstring)
    (maxResults contextLength : Z) (e : exn) :
  (forall subject, host_preview h subject query = Throw e) ->
  1 <= maxResults ->
  forall docs,
    existsb (has_match h query) docs = true ->
    search_loop h docs query maxResults contextLength [] = Throw e.
Proof.
  intros Hpv Hk. induction docs as [| doc docs IH]; intros Hex;
    [discriminate Hex |].
  cbn [existsb] in Hex. rewrite search_loop_step.
  destruct (has_match h query doc) eqn:Hm.
  - rewrite (scan_document_throws h doc query maxResults contextLength e
               Hpv Hm).
    reflexivity.
  - rewrite (scan_document_absent h doc query maxResults contextLength Hm).
    cbn [bind]. cbv zeta. change (len (@nil SearchMatch) >? 0) with false.
    cbv iota. change (len (@nil SearchResult)) with 0.
    destruct (0 >=? maxResults) eqn:E;
      [rewrite Z.geb_leb in E; apply Z.leb_le in E; lia |].
    apply IH. exact Hex.
Qed.

(** X18: a query the preview step cannot take.  On every host, when the
    preview step throws for the query whatever the text it is given, as it
    does when [new RegExp] rejects the query, and maxResults is an integer
    k >= 1, [search-pdfs] throws that error as soon as the scan finds the
    query in one stored document; the documents before it, in which the
    scan does not find it, add nothing.  Together with the answer for a
    query found in no document, the outcome of such a query depends on
    the stored texts. *)
Theorem failing_preview_stops_the_search (h : Host) (query : jsstring)
    (maxResults contextLength : option Z) (st : store) (e : exn) :
  (forall subject, host_preview h subject query = Throw e) ->
  1 <= or_default maxResults 10 ->
  existsb (has_match h query) (Object_values st) = true ->
  search_pdfs h query maxResults contextLength st = Throw e.
Proof.
  intros Hpv Hk Hex. unfold search_pdfs.
  rewrite (search_loop_throws h query _ _ e Hpv Hk (Object_values st) Hex).
  reflexivity.
Qed.

Lemma failing_preview_stops_the_search_witness :
  search_pdfs modelled_host (str "a)") None None
              (pair_store (str "no such text") (str "f(a) = 1"))
    = Throw SyntaxError.
Proof.
  apply (failing_preview_stops_the_search modelled_host (str "a)") None None
           (pair_store (str "no such text") (str "f(a) = 1")) SyntaxError).
  - intros subject. reflexivity.
  - simpl. lia.
  - reflexivity.
Defined.

End RemovalAndSearch.

Section Filenames.

Lemma take_until_slash_all (s t : jsstring) :
  ~ In 47%N s -> take_until_slash (s ++ 47%N :: t) = s.
Proof.
  induction s as [| c s IH]; intros Hs; [reflexivity |].
  cbn [app take_until_slash].
  destruct (c =? 47)%N eqn:E.
  - apply N.eqb_eq in E. subst c. exfalso. apply Hs. left. reflexivity.
  - rewrite IH; [reflexivity |]. intros H. apply Hs. right. exact H.
Qed.

Lemma drop_slashes_none (s : jsstring) :
  s <> [] -> ~ In 47%N s -> forall t, drop_slashes (s ++ t) = s ++ t.
Proof.
  intros Hne Hs t. destruct s as [| c s]; [contradiction |].
  cbn [app drop_slashes].
  destruct (c =? 47)%N eqn:E; [| reflexivity].
  apply N.eqb_eq in E. subst c. exfalso. apply Hs. left. reflexivity.
Qed.

Lemma basename_of_joined (dir name : jsstring) :
  name <> [] -> ~ In 47%N name -> basename (dir ++ 47%N :: name) = name.
Proof.
  intros Hne Hs. unfold basename.
  replace (rev (dir ++ 47%N :: name)) with (rev name ++ 47%N :: rev dir)
    by (rewrite rev_app_distr; cbn [rev]; rewrite <- app_assoc; reflexivity).
  assert (Hrne : rev name <> []).
  { intros H. apply Hne. rewrite <- (rev_involutive name), H. reflexivity. }
  assert (Hrs : ~ In 47%N (rev name)).
  { intros H. apply Hs. apply in_rev. exact H. }
  rewrite (drop_slashes_none (rev name) Hrne Hrs).
  rewrite (take_until_slash_all (rev name) (rev dir) Hrs).
  apply rev_involutive.
Qed.

(** X19: the file name of a registration.  With the POSIX path.basename,
    registering the file [dir/name], where name is not empty and holds no
    slash, answers with the filename [name] and stores the document under
    that file name, with the path as it was given; the directory part may
    be any text. *)
Theorem registered_filename_is_last_segment (e : Env) (dir name : jsstring)
    (p : PdfData) (st : store) :
  name <> [] ->
  ~ In 47%N name ->
  snd (register_pdf e (dir ++ 47%N :: name) (Extracted p) st)
    = Registered (make_docId e) name (pages_or_zero (numpages p))
                 (len (text p)) /\
  exists doc,
    get_property (fst (register_pdf e (dir ++ 47%N :: name) (Extracted p) st))
                 (make_docId e) = Document doc /\
    filename doc = name /\
    filePath doc = dir ++ 47%N :: name.
Proof.
  intros Hne Hs. pose proof (basename_of_joined dir name Hne Hs) as Hbase.
  unfold register_pdf. cbv zeta. cbn [fst snd]. split.
  - unfold new_document. cbn [id filename metadata pages].
    rewrite Hbase. reflexivity.
  - exists (new_document e (dir ++ 47%N :: name) p). split.
    + unfold get_property.
      change (make_docId e)
        with (id (new_document e (dir ++ 47%N :: name) p)).
      rewrite own_set_same. reflexivity.
    + unfold new_document. cbn [filename filePath]. split;
        [exact Hbase | reflexivity].
Qed.

Lemma registered_filename_is_last_segment_witness :
  snd (register_pdf (sample_env "0.4fzyo82mvyr")
         (str "/home/user/docs" ++ 47%N :: str "report.final.pdf")
         (Extracted {| text := str "the quick brown fox";
                       numpages := None;
                       parsed_info := None;
                       buffer_length := 1024 |})
         fox_store)
  = Registered (make_docId (sample_env "0.4fzyo82mvyr"))
               (str "report.final.pdf") 0 19.
Proof.
  apply (registered_filename_is_last_segment (sample_env "0.4fzyo82mvyr")
           (str "/home/user/docs") (str "report.final.pdf")
           {| text := str "the quick brown fox";
              numpages := None;
              parsed_info := None;
              buffer_length := 1024 |}
           fox_store).
  - discriminate.
  - vm_compute. intros H.
    repeat (destruct H as [H | H]; [discriminate H |]). exact H.
Defined.

End Filenames.
